(** * crudeRedux: the store engine, its combinators and their properties

    A shallow embedding of [src/crudeRedux.js] (and of the logging middleware
    of [src/index.js]).  JavaScript values are a small inductive type, objects
    and listener arrays live in heaps and are named by reference, the closure
    variables of [createStore] are the fields of a record, and every
    operation is a function in a state-and-exception monad over that record. *)

From stdpp Require Import gmap strings list.

Open Scope string_scope.
Disable Notation "_ ++ _" : string_scope.

(** ** JavaScript values *)

Definition loc := nat.   (* reference to a plain object *)
Definition aref := nat.  (* reference to an array of listeners *)
Definition fid := nat.   (* reference to a listener function object *)
Definition sid := nat.   (* reference to an [unsubscribe] closure *)

(** Numbers are modelled on their integer fragment.  Function objects are not
    plain values: an argument that may or may not be a function is a
    [jsarg]. *)
Inductive value :=
| VUndefined
| VNull
| VBool (b : bool)
| VNum (n : Z)
| VStr (s : string)
| VObj (l : loc).

Arguments VNum n%_Z.
Arguments VObj l%_nat.

#[global] Instance value_eq_dec : EqDecision value.
Proof. solve_decision. Defined.

Inductive jsarg (F : Type) :=
| Fn (f : F)
| Val (v : value).
Arguments Fn {F} f.
Arguments Val {F} v.

(** [typeof v] *)
Definition typeof (v : value) : string :=
  match v with
  | VUndefined => "undefined"
  | VNull => "object"
  | VBool _ => "boolean"
  | VNum _ => "number"
  | VStr _ => "string"
  | VObj _ => "object"
  end.

(** ToBoolean, as used by [!action] *)
Definition truthy (v : value) : bool :=
  match v with
  | VUndefined | VNull => false
  | VBool b => b
  | VNum n => negb (Z.eqb n 0%Z)
  | VStr s => negb (String.eqb s EmptyString)
  | VObj _ => true
  end.

(** [a === b] *)
Definition strict_eq (a b : value) : bool := bool_decide (a = b).

(** ** Outcomes, heaps and the closure variables of one store *)

Inductive exn :=
| Error (message : string)      (* [new Error(message)] *)
| TypeError (message : string)  (* raised by the runtime itself *)
| Thrown (v : value).           (* [throw v] in caller code *)

Inductive res (A : Type) :=
| Ok (a : A)
| Throw (e : exn)
| OutOfFuel.
Arguments Ok {A} a.
Arguments Throw {A} e.
Arguments OutOfFuel {A}.

Abbreviation obj := (gmap string value).

(** A reducer is caller code: it may allocate or write objects and may
    throw, but it cannot reach the closure variables of the store. *)
Definition reducer_fn := value -> value -> list obj -> res value * list obj.

Inductive event :=
| EReducer (state action : value)    (* the engine called [reducer(state, action)] *)
| EListener (f : fid)                (* the engine called [listener()] *)
| EConsole (line : string) (v : value). (* [console.log(line, v)] *)

Record world := World {
  heap : list obj;
  arrays : list (list fid);
  subscriptions : list (fid * bool);  (* per [subscribe] call: [listener], [isSubscribed] *)
  currentState : value;
  currentListeners : aref;
  nextListeners : aref;
  reducer : reducer_fn;
  trace : list event
}.

Definition set_heap (h : list obj) (w : world) : world :=
  World h (arrays w) (subscriptions w) (currentState w) (currentListeners w)
        (nextListeners w) (reducer w) (trace w).
Definition set_arrays (a : list (list fid)) (w : world) : world :=
  World (heap w) a (subscriptions w) (currentState w) (currentListeners w)
        (nextListeners w) (reducer w) (trace w).
Definition set_subscriptions (s : list (fid * bool)) (w : world) : world :=
  World (heap w) (arrays w) s (currentState w) (currentListeners w)
        (nextListeners w) (reducer w) (trace w).
Definition set_currentState (v : value) (w : world) : world :=
  World (heap w) (arrays w) (subscriptions w) v (currentListeners w)
        (nextListeners w) (reducer w) (trace w).
Definition set_currentListeners (r : aref) (w : world) : world :=
  World (heap w) (arrays w) (subscriptions w) (currentState w) r
        (nextListeners w) (reducer w) (trace w).
Definition set_nextListeners (r : aref) (w : world) : world :=
  World (heap w) (arrays w) (subscriptions w) (currentState w) (currentListeners w)
        r (reducer w) (trace w).
Definition set_reducer (r : reducer_fn) (w : world) : world :=
  World (heap w) (arrays w) (subscriptions w) (currentState w) (currentListeners w)
        (nextListeners w) r (trace w).
Definition set_trace (t : list event) (w : world) : world :=
  World (heap w) (arrays w) (subscriptions w) (currentState w) (currentListeners w)
        (nextListeners w) (reducer w) t.

(** ** The monad of operations

    State passing with exceptions: what was written before a [throw] stays
    written.  [H] is the monad of caller code that only sees the object heap,
    [M] the one of code that also sees the store. *)

Definition ST (S A : Type) : Type := S -> res A * S.
Definition H (A : Type) : Type := ST (list obj) A.
Definition M (A : Type) : Type := ST world A.

Definition ret {S A} (a : A) : ST S A := fun s => (Ok a, s).

Definition bind {S A B} (m : ST S A) (k : A -> ST S B) : ST S B :=
  fun s =>
    match m s with
    | (Ok a, s') => k a s'
    | (Throw e, s') => (Throw e, s')
    | (OutOfFuel, s') => (OutOfFuel, s')
    end.

Definition throw {S A} (e : exn) : ST S A := fun s => (Throw e, s).
Definition out_of_fuel {S A} : ST S A := fun s => (OutOfFuel, s).
Definition gets {S A} (f : S -> A) : ST S A := fun s => (Ok (f s), s).
Definition modify {S} (f : S -> S) : ST S unit := fun s => (Ok tt, f s).

Notation "x <- c1 ;; c2" := (bind c1 (fun x => c2))
  (at level 100, c1 at next level, right associativity).
Notation "c1 ;; c2" := (bind c1 (fun _ => c2))
  (at level 100, right associativity).

Definition lift_heap {A} (m : H A) : M A :=
  fun w => let '(r, h) := m (heap w) in (r, set_heap h w).

Definition log (e : event) : M unit :=
  modify (fun w => set_trace (trace w ++ [e]) w).

(** Object heap: [{...}] allocates, [o[k]] reads an own property,
    [o[k] = v] writes one. *)
Definition alloc (o : obj) : H value :=
  fun h => (Ok (VObj (length h)), h ++ [o]).

Definition heap_get (h : list obj) (l : loc) (k : string) : value :=
  match h !! l with
  | Some o => default VUndefined (o !! k)
  | None => VUndefined
  end.

Arguments heap_get h l%_nat k.

Definition heap_set (l : loc) (k : string) (v : value) (h : list obj) : list obj :=
  match h !! l with
  | Some o => <[l := <[k := v]> o]> h
  | None => h
  end.

(** [v[k]]: own properties of plain objects; reading through [undefined] or
    [null] is a TypeError; members of primitive wrappers are not modelled. *)
Definition get_prop (v : value) (k : string) : H value :=
  match v with
  | VObj l => gets (fun h => heap_get h l k)
  | VUndefined | VNull => throw (TypeError "Cannot read properties")
  | _ => ret VUndefined
  end.

(** Arrays of listeners *)
Definition read_array (r : aref) : M (list fid) :=
  fun w =>
    match arrays w !! r with
    | Some l => (Ok l, w)
    | None => (Throw (TypeError "dangling array"), w)
    end.

Definition write_array (r : aref) (l : list fid) : M unit :=
  modify (fun w => set_arrays (<[r := l]> (arrays w)) w).

(** A new array, as [[]] and [a.slice()] make one *)
Definition new_array (l : list fid) : M aref :=
  fun w => (Ok (length (arrays w)), set_arrays (arrays w ++ [l]) w).

(** [a.slice()] *)
Definition slice (r : aref) : M aref :=
  l <- read_array r ;;
  new_array l.

(** [a.indexOf(x)] *)
Fixpoint indexOf_from (x : fid) (l : list fid) (i : Z) : Z :=
  match l with
  | [] => (-1)%Z
  | y :: l' => if decide (y = x) then i else indexOf_from x l' (i + 1)%Z
  end.
Definition indexOf (x : fid) (l : list fid) : Z := indexOf_from x l 0%Z.

(** [a.splice(index, 1)]: a negative start counts from the end *)
Definition splice1 (index : Z) (l : list fid) : list fid :=
  let len := Z.of_nat (length l) in
  let start := (if index <? 0 then Z.max (len + index) 0 else Z.min index len)%Z in
  delete (Z.to_nat start) l.

(** What a caller holds after [createStore]. *)
Record store := Store {
  store_getState : M value;
  store_dispatch : value -> M value;
  store_subscribe : jsarg fid -> M sid;
  store_replaceReducer : jsarg reducer_fn -> M unit
}.

Definition init_action : obj := {[ "type" := VStr "@@redux_init" ]}.

(** The store-construction function as an enhancer calls it, with a reducer
    and a state that is not a function, and enhancers.  The arguments of
    [createStore(reducer, preloadedState, enhancer)] after the reducer are
    typed as either a state that is not a function followed by anything, or
    a function in second position with nothing after it. *)
Definition creator := jsarg reducer_fn -> value -> M store.
Definition enhancer_fn := creator -> creator.

Inductive tail_args :=
| StateAndEnhancer (preloadedState : value) (enhancer : jsarg enhancer_fn)
| EnhancerSecond (f : enhancer_fn).

(** ** The store engine (createStore, lines 27-97) *)

Section Engine.

(** The bodies of the listener function objects.  A listener is called
    with no argument; what it can reach is the store. *)
Variable listener_body : fid -> store -> M unit.

Definition ensureCanMutateNextListeners : M unit :=
  next <- gets nextListeners ;;
  cur <- gets currentListeners ;;
  if decide (next = cur) then
    copy <- slice cur ;;
    modify (set_nextListeners copy)
  else ret tt.

Definition getState : M value := gets currentState.

(** The closure returned by the [subscribe] call number [s]. *)
Definition unsubscribe (s : sid) : M unit :=
  subs <- gets subscriptions ;;
  match subs !! s with
  | None => throw (TypeError "unsubscribe is not a function")
  | Some (listener, isSubscribed) =>
      if negb isSubscribed then ret tt
      else
        modify (fun w => set_subscriptions (<[s := (listener, false)]> (subscriptions w)) w) ;;
        ensureCanMutateNextListeners ;;
        next <- gets nextListeners ;;
        l <- read_array next ;;
        let index := indexOf listener l in
        write_array next (splice1 index l)
  end.

Definition subscribe (listener : jsarg fid) : M sid :=
  match listener with
  | Val _ => throw (Error "Expected the listener to be a function.")
  | Fn f =>
      s <- gets (fun w => length (subscriptions w)) ;;
      modify (fun w => set_subscriptions (subscriptions w ++ [(f, true)]) w) ;;
      ensureCanMutateNextListeners ;;
      next <- gets nextListeners ;;
      l <- read_array next ;;
      write_array next (l ++ [f]) ;;
      ret s
  end.

(** [currentState = reducer(currentState, action)]: the assignment
    happens only if the call returns. *)
Definition reduce (action : value) : M unit :=
  reducer <- gets reducer ;;
  state <- gets currentState ;;
  log (EReducer state action) ;;
  next <- lift_heap (reducer state action) ;;
  modify (set_currentState next).

(** The notification loop of [dispatch]: [listeners.length] and
    [listeners[i]] are read from the array at every iteration. *)
Fixpoint notify (call : fid -> M unit) (listeners : aref) (fuel i : nat) : M unit :=
  l <- read_array listeners ;;
  match l !! i with
  | None => ret tt
  | Some listener =>
      match fuel with
      | O => out_of_fuel
      | S fuel' =>
          log (EListener listener) ;;
          call listener ;;
          notify call listeners fuel' (S i)
      end
  end.

Definition replaceReducer (dispatch : value -> M value)
    (newReducer : jsarg reducer_fn) : M unit :=
  match newReducer with
  | Val _ => throw (Error "Expected the reducer to be a function.")
  | Fn r =>
      modify (set_reducer r) ;;
      a <- lift_heap (alloc init_action) ;;
      dispatch a ;;
      ret tt
  end.

Definition mk_store (dispatch : value -> M value) : store :=
  {| store_getState := getState;
     store_dispatch := dispatch;
     store_subscribe := subscribe;
     store_replaceReducer := replaceReducer dispatch |}.

(** [dispatch]; [fuel] bounds the notification loop and the depth of
    dispatches made from inside listeners. *)
Fixpoint dispatch (fuel : nat) (action : value) : M value :=
  (if negb (truthy action) || negb (String.eqb (typeof action) "object")
   then throw (Error "Expected the action to be a object.")
   else ret tt) ;;
  ty <- lift_heap (get_prop action "type") ;;
  (if String.eqb (typeof ty) "undefined"
   then throw (Error "Actions may not have 'type' property.")
   else ret tt) ;;
  reduce action ;;
  listeners <- gets nextListeners ;;
  modify (set_currentListeners listeners) ;;
  notify (fun listener =>
            match fuel with
            | O => out_of_fuel
            | S fuel' => listener_body listener (mk_store (dispatch fuel'))
            end) listeners fuel 0 ;;
  ret action.

(** [listener()] as the loop of [dispatch fuel] performs it. *)
Definition call_listener (fuel : nat) (listener : fid) : M unit :=
  match fuel with
  | O => out_of_fuel
  | S fuel' => listener_body listener (mk_store (dispatch fuel'))
  end.

(** [createStore], with [self] the [createStore] that line 24 hands to the
    enhancer. *)
Definition createStore_from (self : creator) (fuel : nat)
    (reducer : jsarg reducer_fn) (rest : tail_args) : M store :=
  (* default parameter: [preloadedState = {}] *)
  rest <- match rest with
          | StateAndEnhancer VUndefined enhancer =>
              o <- lift_heap (alloc ∅) ;; ret (StateAndEnhancer o enhancer)
          | _ => ret rest
          end ;;
  match reducer with
  | Val _ => throw (Error "Expected the reducer to be a function.")
  | Fn r =>
      let '(preloadedState, enhancer) :=
        match rest with
        | EnhancerSecond f => (VUndefined, Fn f)
        | StateAndEnhancer preloadedState enhancer => (preloadedState, enhancer)
        end in
      match enhancer with
      | Fn f => f self reducer preloadedState
      | Val VUndefined =>
          modify (set_reducer r) ;;
          modify (set_currentState preloadedState) ;;
          empty <- new_array [] ;;
          modify (set_currentListeners empty) ;;
          modify (set_nextListeners empty) ;;
          a <- lift_heap (alloc init_action) ;;
          dispatch fuel a ;;
          ret (mk_store (dispatch fuel))
      | Val _ => throw (Error "Expected the enhancer to be a function.")
      end
  end.

(** An enhancer calls [createStore(reducer, preloadedState)] with a state
    that is not a function: the path without enhancer, which never uses
    [self]. *)
Definition createStore_plain (fuel : nat) : creator :=
  fun reducer preloadedState =>
    createStore_from (fun _ _ => throw (TypeError "not reached")) fuel reducer
      (StateAndEnhancer preloadedState (Val VUndefined)).

Definition createStore (fuel : nat) (reducer : jsarg reducer_fn)
    (rest : tail_args) : M store :=
  createStore_from (createStore_plain fuel) fuel reducer rest.

End Engine.

(** ** bindActionCreators (lines 106-136) *)

Definition action_creator := list value -> M value.

Definition bindActionCreator (actionCreator : action_creator)
    (dispatch : value -> M value) : action_creator :=
  fun args => a <- actionCreator args ;; dispatch a.

(** An object whose own enumerable properties may hold functions, in the
    order of [Object.keys]; [o[key]] finds the entry of that name. *)
Fixpoint entry {F} (key : string) (o : list (string * jsarg F)) : jsarg F :=
  match o with
  | [] => Val VUndefined
  | (k, x) :: o' => if decide (k = key) then x else entry key o'
  end.

Definition keys_of {F} (o : list (string * jsarg F)) : list string := o.*1.

(** [String(keys)] of an array of strings, the property name that
    [boundActionCreators[keys]] writes. *)
Definition array_to_string (keys : list string) : string := String.concat "," keys.

Inductive creators_arg :=
| Creator (f : action_creator)
| CreatorObject (o : list (string * jsarg action_creator))
| NotCreators (v : value).

Inductive bound_creators :=
| BoundCreator (f : action_creator)
| BoundObject (o : gmap string action_creator).

(** The loop of lines 127-133, from index [i] on. *)
Fixpoint bind_loop (actionCreators : list (string * jsarg action_creator))
    (dispatch : value -> M value) (keys : list string) (rest : list string)
    (boundActionCreators : gmap string action_creator) : gmap string action_creator :=
  match rest with
  | [] => boundActionCreators
  | key :: rest' =>
      match entry key actionCreators with
      | Fn actionCreator =>
          bind_loop actionCreators dispatch keys rest'
            (<[array_to_string keys := bindActionCreator actionCreator dispatch]>
               boundActionCreators)
      | Val _ => bind_loop actionCreators dispatch keys rest' boundActionCreators
      end
  end.

Definition bindActionCreators (actionCreators : creators_arg)
    (dispatch : value -> M value) : res bound_creators :=
  match actionCreators with
  | Creator f => Ok (BoundCreator (bindActionCreator f dispatch))
  | NotCreators (VObj _) => Ok (BoundObject ∅)
  | NotCreators _ => Throw (Error "actionCreator expected  an object or a function.")
  | CreatorObject o =>
      let keys := keys_of o in
      Ok (BoundObject (bind_loop o dispatch keys keys ∅))
  end.

(** ** combineReducers (lines 145-166) *)

Section Combinator.

(** The two conversions of the runtime that [!=] relies on: ToNumber on
    strings ([None] is NaN) and ToPrimitive on objects. *)
Variable StringToNumber : string -> option Z.
Variable ToPrimitive : list obj -> loc -> value.

Definition bool_to_number (b : bool) : Z := if b then 1%Z else 0%Z.

(** [a == b] on values that are not objects *)
Definition loose_eq_prim (a b : value) : bool :=
  match a, b with
  | (VUndefined | VNull), (VUndefined | VNull) => true
  | VBool x, VBool y => bool_decide (x = y)
  | VNum x, VNum y => bool_decide (x = y)
  | VStr x, VStr y => bool_decide (x = y)
  | VNum x, VStr y | VStr y, VNum x => bool_decide (StringToNumber y = Some x)
  | VBool x, VNum y | VNum y, VBool x => bool_decide (bool_to_number x = y)
  | VBool x, VStr y | VStr y, VBool x =>
      bool_decide (StringToNumber y = Some (bool_to_number x))
  | _, _ => false
  end.

(** [a == b] *)
Definition loose_eq (h : list obj) (a b : value) : bool :=
  match a, b with
  | VObj x, VObj y => bool_decide (x = y)
  | VObj _, (VUndefined | VNull) | (VUndefined | VNull), VObj _ => false
  | VObj x, _ => loose_eq_prim (ToPrimitive h x) b
  | _, VObj y => loose_eq_prim a (ToPrimitive h y)
  | _, _ => loose_eq_prim a b
  end.

(** The loop of [combination], lines 154-162. *)
Fixpoint combination_loop (finalReducers : list (string * jsarg reducer_fn))
    (state action : value) (nextState : loc) (keys : list string)
    (hasChange : bool) : H bool :=
  match keys with
  | [] => ret hasChange
  | key :: keys' =>
      previousStateForKey <- get_prop state key ;;
      match entry key finalReducers with
      | Fn r =>
          nextStateForKey <- r previousStateForKey action ;;
          modify (heap_set nextState key nextStateForKey) ;;
          differs <- gets (fun h => negb (loose_eq h nextStateForKey previousStateForKey)) ;;
          combination_loop finalReducers state action nextState keys'
            (hasChange || differs)
      | Val _ =>
          combination_loop finalReducers state action nextState keys' hasChange
      end
  end.

(** [combination], the reducer that [combineReducers] returns, closed over
    [finalReducers] and [finalReducerKeys]. *)
Definition combination (finalReducers : list (string * jsarg reducer_fn))
    (finalReducerKeys : list string) : reducer_fn :=
  fun state action =>
    (* default parameter: [state = {}] *)
    state <- match state with
             | VUndefined => alloc ∅
             | _ => ret state
             end ;;
    nextState <- alloc ∅ ;;
    match nextState with
    | VObj l =>
        hasChange <- combination_loop finalReducers state action l finalReducerKeys false ;;
        ret (if hasChange then nextState else state)
    | _ => throw (TypeError "not reached")
    end.

(** [Object.assign({}, reducers)] copies the entries, [Object.keys] lists
    their names. *)
Definition combineReducers (reducers : list (string * jsarg reducer_fn)) : reducer_fn :=
  let finalReducers := reducers in
  let finalReducerKeys := keys_of finalReducers in
  combination finalReducers finalReducerKeys.

End Combinator.

(** ** compose (lines 173-182) *)

Definition compose {A} (funcs : list (A -> A)) : A -> A :=
  match funcs with
  | [] => fun args => args
  | [f] => f
  | f :: rest => fold_left (fun a b => fun args => a (b args)) rest f
  end.

(** ** applyMiddleware (lines 191-212) *)

Record middlewareAPI := MiddlewareAPI {
  api_getState : M value;
  api_dispatch : value -> M value
}.

Definition middleware := middlewareAPI -> (value -> M value) -> value -> M value.

(** The variable [dispatch] of [applyMiddleware] after line 204.  The
    [dispatch] of [middlewareAPI] reads that variable when an action is
    handled, so it is the composed chain again; [fuel] bounds how deep
    middlewares re-dispatch through it. *)
Fixpoint composed_dispatch (middlewares : list middleware) (store : store)
    (fuel : nat) : value -> M value :=
  let middlewareAPI :=
    {| api_getState := store_getState store;
       api_dispatch := fun action =>
         match fuel with
         | O => out_of_fuel
         | S fuel' => composed_dispatch middlewares store fuel' action
         end |} in
  let chain := map (fun middleware => middleware middlewareAPI) middlewares in
  compose chain (store_dispatch store).

(** The third argument that line 193 forwards is absent whenever the
    enhancer is called from line 24. *)
Definition applyMiddleware (fuel : nat) (middlewares : list middleware) : enhancer_fn :=
  fun createStore reducer preloadedState =>
    store <- createStore reducer preloadedState ;;
    ret {| store_getState := store_getState store;
           store_dispatch := composed_dispatch middlewares store fuel;
           store_subscribe := store_subscribe store;
           store_replaceReducer := store_replaceReducer store |}.

(** [printStateMiddleware] of src/index.js, with its two console lines as
    parameters. *)
Definition logMiddleware (before after : string) : middleware :=
  fun middlewareAPI dispatch action =>
    s <- api_getState middlewareAPI ;;
    log (EConsole before s) ;;
    returnValue <- dispatch action ;;
    s' <- api_getState middlewareAPI ;;
    log (EConsole after s') ;;
    ret returnValue.

Definition printStateMiddleware : middleware :=
  logMiddleware "state before dispatch" "state after dispatch".

(** ** The reducer of src/index.js *)

(** [Object.assign(target, source)], [source] given by its properties: they
    are written to the target object, which is returned.  An absent target
    is a TypeError.  A primitive target is wrapped in a new object; of that
    wrapper only the assigned properties are modelled. *)
Definition object_assign (target : value) (source : list (string * value)) : H value :=
  match target with
  | VUndefined | VNull =>
      throw (TypeError "Cannot convert undefined or null to object")
  | VObj l =>
      modify (fun h => foldl (fun h0 kv => heap_set l kv.1 kv.2 h0) h source) ;;
      ret target
  | _ => alloc (list_to_map source)
  end.

(** [appReducer]: the object literal is built, then assigned into the state
    object itself. *)
Definition appReducer : reducer_fn :=
  fun state action =>
    ty <- get_prop action "type" ;;
    if strict_eq ty (VStr "UPDATE_HEADER") then
      header <- get_prop action "header" ;;
      alloc {[ "header" := header ]} ;;
      object_assign state [("header", header)]
    else if strict_eq ty (VStr "UPDATE_BODY") then
      body <- get_prop action "body" ;;
      alloc {[ "body" := body ]} ;;
      object_assign state [("body", body)]
    else ret state.

(** * The vocabulary of the properties *)

(** An action that passes the two guards of [dispatch]: an object whose
    [type] is not [undefined]. *)
Definition valid_action (h : list obj) (a : value) : Prop :=
  exists l, a = VObj l /\ heap_get h l "type" <> VUndefined.

(** What the guards reject: [null], anything that is not an object, and an
    object with no [type]. *)
Definition invalid_action (h : list obj) (a : value) : Prop :=
  a = VNull \/ typeof a <> "object" \/
  (exists l, a = VObj l /\ heap_get h l "type" = VUndefined).

(** An action on which [dispatch] gets past its guards and the reducer
    returns. *)
Definition dispatchable (w : world) (a : value) : Prop :=
  valid_action (heap w) a /\
  exists v h', reducer w (currentState w) a (heap w) = (Ok v, h').

(** The events of a stretch of trace that are listener calls, and the
    listeners called between two worlds, in call order. *)
Definition listener_calls (t : list event) : list fid :=
  omap (fun e => match e with EListener f => Some f | _ => None end) t.

Definition calls_between (w w' : world) : list fid :=
  listener_calls (drop (length (trace w)) (trace w')).

Definition is_console (e : event) : Prop :=
  match e with EConsole _ _ => True | _ => False end.

(** Caller code that returns normally and only writes to the console. *)
Definition quiet (m : M unit) : Prop :=
  forall w, exists evs,
    Forall is_console evs /\ m w = (Ok tt, set_trace (trace w ++ evs) w).

(** The listener array that [subscribe] and [unsubscribe] write. *)
Definition registry (w : world) : option (list fid) :=
  arrays w !! nextListeners w.

(** The world after [ensureCanMutateNextListeners], [ls] being the array
    that [nextListeners] names. *)
Definition ensured (ls : list fid) (w : world) : world :=
  if decide (nextListeners w = currentListeners w)
  then set_nextListeners (length (arrays w)) (set_arrays (arrays w ++ [ls]) w)
  else w.

(** The default parameter [preloadedState = {}]: the state and the heap
    that the body of [createStore] starts from. *)
Definition defaulted (preloadedState : value) (h : list obj) : value * list obj :=
  match preloadedState with
  | VUndefined => (VObj (length h), h ++ [∅])
  | _ => (preloadedState, h)
  end.

(** A middleware of the standard shape: handed the store's [getState], it
    does something quiet, passes the action it received to [next], does
    something quiet again and returns what [next] returned. *)
Definition standard_shape (mw : middleware) : Prop :=
  forall dispatch next action, exists before after : M unit,
    quiet before /\ quiet after /\
    forall w, mw (MiddlewareAPI getState dispatch) next action w =
              (before ;; r <- next action ;; after ;; ret r) w.



(** A chain of logging middlewares, one per pair of console lines. *)
Definition logMiddlewares (labels : list (string * string)) : list middleware :=
  map (fun l : string * string => logMiddleware l.1 l.2) labels.

(** The last entry of an object that holds a function. *)
Fixpoint last_creator {F} (o : list (string * jsarg F)) : option F :=
  match o with
  | [] => None
  | (_, x) :: o' =>
      match last_creator o', x with
      | Some f, _ => Some f
      | None, Fn f => Some f
      | None, Val _ => None
      end
  end.

(** Sub-reducers that compute on values and leave the heap alone, an
    object of such reducers, and the object that [combination] assembles
    from them: one property per entry that is a function, holding what
    that function returns on the property of the state [o]. *)
Definition pure_reducer (f : value -> value -> value) : reducer_fn :=
  fun state action => ret (f state action).

Definition pure_entries (rs : list (string * jsarg (value -> value -> value)))
    : list (string * jsarg reducer_fn) :=
  map (fun e : string * jsarg (value -> value -> value) =>
         (e.1, match e.2 with Fn f => Fn (pure_reducer f) | Val v => Val v end)) rs.

Fixpoint next_state (o : obj) (action : value) (acc : obj)
    (rs : list (string * jsarg (value -> value -> value))) : obj :=
  match rs with
  | [] => acc
  | (k, Fn f) :: rs' =>
      next_state o action (<[k := f (default VUndefined (o !! k)) action]> acc) rs'
  | (_, Val _) :: rs' => next_state o action acc rs'
  end.

(** The two actions that [appReducer] handles, each with the property it
    updates. *)
Definition app_update (type field : string) : Prop :=
  (type = "UPDATE_HEADER" /\ field = "header") \/
  (type = "UPDATE_BODY" /\ field = "body").

Section Vocabulary.

Variable listener_body : fid -> store -> M unit.

(** A listener that is quiet with the store operations the engine hands
    it. *)
Definition quiet_listener (f : fid) : Prop :=
  forall fuel, quiet (listener_body f (mk_store (dispatch listener_body fuel))).

(** Each of the next [n] dispatches, whatever its action, returns and
    calls exactly [expected]. *)
Fixpoint later_passes (fuel : nat) (expected : list fid) (n : nat)
    (w : world) : Prop :=
  match n with
  | O => True
  | S n' =>
      forall a, dispatchable w a ->
        exists w', dispatch listener_body fuel a w = (Ok a, w') /\
          calls_between w w' = expected /\
          later_passes fuel expected n' w'
  end.

(** What a dispatch needs to return: guards passed, reducer returning,
    quiet listeners, enough fuel for the loop.  None of it depends on the
    trace. *)
Definition ready (fuel : nat) (a : value) (w : world) : Prop :=
  valid_action (heap w) a /\
  (exists v h', reducer w (currentState w) a (heap w) = (Ok v, h')) /\
  exists ls, registry w = Some ls /\
    (forall f, f ∈ ls -> quiet_listener f) /\ length ls <= fuel.

End Vocabulary.

(** ** A concrete store *)

(** A counter: ["INC"] increments, ["BOOM"] throws, anything else keeps the
    state. *)
Definition counter : reducer_fn :=
  fun state action =>
    ty <- get_prop action "type" ;;
    match ty, state with
    | VStr t, VNum n =>
        if String.eqb t "INC" then ret (VNum (n + 1)%Z)
        else if String.eqb t "BOOM" then throw (Thrown (VStr "boom"))
        else ret state
    | _, _ => ret state
    end.

(** Listener 1 calls the [unsubscribe] closure number 2; every other
    listener prints the state. *)
Definition demo_listeners : fid -> store -> M unit :=
  fun f st =>
    match f with
    | 1 => unsubscribe 2
    | _ => s <- store_getState st ;; log (EConsole "render" s)
    end.

(** Objects 0, 1, 2 are [{type: "INC"}], [{type: "BOOM"}] and [{}];
    listener 0 is subscribed. *)
Definition demo_world : world :=
  {| heap := [ {[ "type" := VStr "INC" ]}; {[ "type" := VStr "BOOM" ]}; ∅ ];
     arrays := [[0]];
     subscriptions := [(0, true)];
     currentState := VNum 0;
     currentListeners := 0;
     nextListeners := 0;
     reducer := counter;
     trace := [] |}.

(** Three more sets of listener bodies: listener 1 throws; every listener
    dispatches object 0 again; listener 1 subscribes listener 2.  In each
    the other listeners print the state. *)
Definition failing_listeners : fid -> store -> M unit :=
  fun f st =>
    match f with
    | 1 => throw (Thrown (VStr "listener failed"))
    | _ => s <- store_getState st ;; log (EConsole "render" s)
    end.

Definition redispatching_listeners : fid -> store -> M unit :=
  fun _ st => store_dispatch st (VObj 0) ;; ret tt.

Definition subscribing_listeners : fid -> store -> M unit :=
  fun f st =>
    match f with
    | 1 => store_subscribe st (Fn 2) ;; ret tt
    | _ => s <- store_getState st ;; log (EConsole "render" s)
    end.

(** The world of [demo_world] with listeners 0, 1, 2 registered. *)
Definition demo_world_three : world :=
  {| heap := heap demo_world;
     arrays := [[0; 1; 2]];
     subscriptions := [(0, true); (1, true); (2, true)];
     currentState := VNum 0;
     currentListeners := 0;
     nextListeners := 0;
     reducer := counter;
     trace := [] |}.

(** The world of [demo_world] with listeners 0 and 1 registered. *)
Definition demo_world_two : world :=
  {| heap := heap demo_world;
     arrays := [[0; 1]];
     subscriptions := [(0, true); (1, true)];
     currentState := VNum 0;
     currentListeners := 0;
     nextListeners := 0;
     reducer := counter;
     trace := [] |}.

(** The store of src/index.js before its first dispatch: object 0 is the
    state [{header: "Header", body: "Body"}], object 1 the action
    [{type: "UPDATE_HEADER", header: "New Header"}]. *)
Definition app_world : world :=
  {| heap := [ {[ "header" := VStr "Header"; "body" := VStr "Body" ]};
               {[ "type" := VStr "UPDATE_HEADER"; "header" := VStr "New Header" ]} ];
     arrays := [[0]];
     subscriptions := [(0, true)];
     currentState := VObj 0;
     currentListeners := 0;
     nextListeners := 0;
     reducer := appReducer;
     trace := [] |}.

(** * Properties *)

(** ** Reading the world *)

Lemma set_trace_id w : set_trace (trace w) w = w.
Proof. by destruct w. Qed.

Lemma set_heap_id w : set_heap (heap w) w = w.
Proof. by destruct w. Qed.

Lemma set_trace_twice t1 t2 w : set_trace t2 (set_trace t1 w) = set_trace t2 w.
Proof. reflexivity. Qed.

Lemma set_trace_nil w : set_trace (trace w ++ []) w = w.
Proof. rewrite app_nil_r. apply set_trace_id. Qed.

Ltac unfold_monad :=
  repeat progress
    unfold bind, ret, gets, modify, throw, out_of_fuel, lift_heap, log, alloc,
      read_array, write_array, new_array, slice, getState in *.

Lemma typeof_undefined v : typeof v = "undefined" <-> v = VUndefined.
Proof. by destruct v. Qed.

Lemma listener_calls_console evs :
  Forall is_console evs -> listener_calls evs = [].
Proof.
  induction 1 as [|e evs He _ IH]; [done|].
  by destruct e.
Qed.

Lemma listener_calls_app t1 t2 :
  listener_calls (t1 ++ t2) = listener_calls t1 ++ listener_calls t2.
Proof. apply omap_app. Qed.

Section EngineProperties.

Variable listener_body : fid -> store -> M unit.

Abbreviation dispatch := (dispatch listener_body).
Abbreviation quiet_listener := (quiet_listener listener_body).
Abbreviation later_passes := (later_passes listener_body).
Abbreviation ready := (ready listener_body).

Lemma bind_Ok {S A B} (m : ST S A) (k : A -> ST S B) s a s' :
  m s = (Ok a, s') -> bind m k s = k a s'.
Proof. unfold bind. by intros ->. Qed.

Lemma bind_Throw {S A B} (m : ST S A) (k : A -> ST S B) s e s' :
  m s = (Throw e, s') -> bind m k s = (Throw e, s').
Proof. unfold bind. by intros ->. Qed.

Lemma reduce_Ok w a v h' :
  reducer w (currentState w) a (heap w) = (Ok v, h') ->
  reduce a w =
    (Ok tt, set_currentState v (set_heap h'
              (set_trace (trace w ++ [EReducer (currentState w) a]) w))).
Proof. intros Hr. unfold reduce. unfold_monad. simpl. by rewrite Hr. Qed.

Lemma reduce_Throw w a e h' :
  reducer w (currentState w) a (heap w) = (Throw e, h') ->
  reduce a w =
    (Throw e, set_heap h' (set_trace (trace w ++ [EReducer (currentState w) a]) w)).
Proof. intros Hr. unfold reduce. unfold_monad. simpl. by rewrite Hr. Qed.

(** Past its two guards, [dispatch] is the reducer call, the capture of
    the listener array and the notification loop. *)
Lemma dispatch_valid fuel w a :
  valid_action (heap w) a ->
  dispatch fuel a w =
    (reduce a ;;
     listeners <- gets nextListeners ;;
     modify (set_currentListeners listeners) ;;
     notify (call_listener listener_body fuel) listeners fuel 0 ;;
     ret a) w.
Proof.
  intros (l & -> & Hty).
  assert (String.eqb (typeof (heap_get (heap w) l "type")) "undefined" = false) as Hne.
  { apply String.eqb_neq. by rewrite typeof_undefined. }
  destruct fuel; simpl; unfold bind at 1 2 3; unfold_monad; simpl;
    rewrite Hne; simpl; by rewrite set_heap_id.
Qed.

(** *** The notification loop *)

Lemma notify_end call r ls fuel i w :
  arrays w !! r = Some ls -> length ls <= i ->
  notify call r fuel i w = (Ok tt, w).
Proof.
  intros Hr Hi. destruct fuel; simpl; unfold_monad; rewrite Hr;
    by rewrite (lookup_ge_None_2 ls i Hi).
Qed.

Lemma notify_one call r ls fuel i f w :
  arrays w !! r = Some ls -> ls !! i = Some f ->
  notify call r (S fuel) i w =
    (call f ;; notify call r fuel (S i)) (set_trace (trace w ++ [EListener f]) w).
Proof. intros Hr Hi. simpl. unfold_monad. by rewrite Hr, Hi. Qed.

(** A stretch of [k] quiet listeners is passed over: the loop goes on
    after it in a world that differs by their console lines only. *)
Lemma notify_skip call r ls fuel k : forall i w,
  arrays w !! r = Some ls ->
  (forall f, f ∈ take k (drop i ls) -> quiet (call f)) ->
  i + k <= length ls ->
  exists evs,
    notify call r (k + fuel) i w =
      notify call r fuel (i + k) (set_trace (trace w ++ evs) w) /\
    listener_calls evs = take k (drop i ls).
Proof.
  induction k as [|k IH]; intros i w Hr Hq Hk.
  - exists []. rewrite set_trace_nil, Nat.add_0_r. by rewrite take_0.
  - destruct (lookup_lt_is_Some_2 ls i) as [f Hf]; [lia|].
    rewrite (drop_S _ _ _ Hf) in Hq |- *. simpl in Hq |- *.
    destruct (Hq f ltac:(set_solver) (set_trace (trace w ++ [EListener f]) w))
      as [evs1 [Hc1 He1]].
    destruct (IH (S i) (set_trace (trace w ++ [EListener f] ++ evs1) w))
      as [evs2 [He2 Hl2]]; [done | intros g Hg; apply Hq; set_solver | lia |].
    exists (EListener f :: evs1 ++ evs2). split.
    + change (notify call r (S (k + fuel)) i w = notify call r fuel (i + S k)
        (set_trace (trace w ++ EListener f :: evs1 ++ evs2) w)).
      rewrite (notify_one _ _ _ _ _ _ _ Hr Hf).
      rewrite (bind_Ok _ _ _ _ _ He1).
      simpl in *. rewrite <- !app_assoc in *. simpl in *.
      rewrite !set_trace_twice in *.
      rewrite He2. by rewrite Nat.add_succ_r.
    + simpl. rewrite listener_calls_app, (listener_calls_console _ Hc1), Hl2.
      done.
Qed.

Lemma dispatch_quiet fuel w a v h' ls :
  valid_action (heap w) a ->
  reducer w (currentState w) a (heap w) = (Ok v, h') ->
  registry w = Some ls ->
  (forall f, f ∈ ls -> quiet_listener f) ->
  length ls <= fuel ->
  exists evs,
    dispatch fuel a w =
      (Ok a, set_trace (trace w ++ EReducer (currentState w) a :: evs)
               (set_currentListeners (nextListeners w)
                  (set_currentState v (set_heap h' w)))) /\
    listener_calls evs = ls.
Proof.
  intros Hv Hr Hreg Hq Hfuel.
  rewrite (dispatch_valid _ _ _ Hv).
  rewrite (bind_Ok _ _ _ _ _ (reduce_Ok _ _ _ _ Hr)).
  unfold bind at 1 2, gets, modify. simpl.
  set (w1 := set_currentListeners _ _).
  destruct (notify_skip (call_listener listener_body fuel) (nextListeners w) ls
              (fuel - length ls) (length ls) 0 w1) as [evs [He Hl]].
  - exact Hreg.
  - intros f Hf. rewrite drop_0, firstn_all in Hf.
    destruct fuel as [|n]; [destruct ls; [set_solver | simpl in Hfuel; lia]|].
    intros w'. apply (Hq f Hf).
  - lia.
  - exists evs. rewrite drop_0, firstn_all in Hl. split; [|done].
    replace (length ls + (fuel - length ls)) with fuel in He by lia.
    unfold bind. rewrite He. simpl.
    rewrite (notify_end _ _ ls); [| exact Hreg | lia].
    unfold ret, w1. simpl. rewrite <- app_assoc. reflexivity.
Qed.

(** *** subscribe and unsubscribe *)

Lemma ensure_eq w ls :
  registry w = Some ls ->
  ensureCanMutateNextListeners w = (Ok tt, ensured ls w).
Proof.
  unfold registry, ensureCanMutateNextListeners, ensured. intros Hreg.
  unfold_monad. simpl. case_decide as Hd; [|done].
  by rewrite <- Hd, Hreg.
Qed.

Lemma ensured_registry w ls :
  registry w = Some ls -> registry (ensured ls w) = Some ls.
Proof.
  unfold registry, ensured. intros Hreg. case_decide; [|done]. simpl.
  by rewrite lookup_app_r, Nat.sub_diag.
Qed.

Lemma ensured_old w ls r l :
  arrays w !! r = Some l -> arrays (ensured ls w) !! r = Some l.
Proof.
  unfold ensured. intros Hr. case_decide; [|done]. simpl.
  by apply lookup_app_l_Some.
Qed.

Lemma ensured_fresh w ls :
  registry w = Some ls ->
  nextListeners w = currentListeners w ->
  nextListeners (ensured ls w) <> currentListeners w.
Proof.
  unfold registry, ensured. intros Hreg Heq. rewrite decide_True by done. simpl.
  apply lookup_lt_Some in Hreg. lia.
Qed.

Lemma subscribe_spec w ls f :
  registry w = Some ls ->
  exists w',
    subscribe (Fn f) w = (Ok (length (subscriptions w)), w') /\
    registry w' = Some (ls ++ [f]) /\
    subscriptions w' = subscriptions w ++ [(f, true)] /\
    heap w' = heap w /\ currentState w' = currentState w /\
    reducer w' = reducer w /\ trace w' = trace w.
Proof.
  intros Hreg. unfold subscribe.
  set (w1 := set_subscriptions (subscriptions w ++ [(f, true)]) w).
  assert (registry w1 = Some ls) as Hreg1 by exact Hreg.
  pose proof (ensured_registry _ _ Hreg1) as Hreg2.
  eexists. split.
  - unfold bind at 1 2, gets, modify. simpl. fold w1.
    rewrite (bind_Ok _ _ _ _ _ (ensure_eq _ _ Hreg1)).
    unfold_monad. simpl. unfold registry in Hreg2. rewrite Hreg2. reflexivity.
  - unfold registry in *. simpl.
    rewrite list_lookup_insert_eq by (by eapply lookup_lt_Some).
    unfold ensured, w1. case_decide; simpl; done.
Qed.

Lemma unsubscribe_inactive w s f :
  subscriptions w !! s = Some (f, false) -> unsubscribe s w = (Ok tt, w).
Proof. intros Hs. unfold unsubscribe. unfold_monad. by rewrite Hs. Qed.

Lemma unsubscribe_active w s f ls :
  subscriptions w !! s = Some (f, true) ->
  registry w = Some ls ->
  exists w',
    unsubscribe s w = (Ok tt, w') /\
    registry w' = Some (splice1 (indexOf f ls) ls) /\
    subscriptions w' = <[s := (f, false)]> (subscriptions w) /\
    heap w' = heap w /\ currentState w' = currentState w /\
    reducer w' = reducer w /\ trace w' = trace w /\
    currentListeners w' = currentListeners w /\
    (nextListeners w = currentListeners w ->
     arrays w' !! currentListeners w = Some ls).
Proof.
  intros Hs Hreg. unfold unsubscribe.
  set (w1 := set_subscriptions (<[s := (f, false)]> (subscriptions w)) w).
  assert (registry w1 = Some ls) as Hreg1 by exact Hreg.
  pose proof (ensured_registry _ _ Hreg1) as Hreg2.
  eexists. split.
  - unfold bind at 1, gets. rewrite Hs. simpl.
    unfold bind at 1, modify. fold w1.
    rewrite (bind_Ok _ _ _ _ _ (ensure_eq _ _ Hreg1)).
    unfold_monad. simpl. unfold registry in Hreg2. rewrite Hreg2. reflexivity.
  - unfold registry in *. simpl.
    rewrite list_lookup_insert_eq by (by eapply lookup_lt_Some).
    repeat split; try (unfold ensured, w1; case_decide; simpl; done).
    intros Heq.
    rewrite list_lookup_insert_ne.
    + apply ensured_old. simpl. by rewrite <- Heq.
    + apply (ensured_fresh w1 ls Hreg1 Heq).
Qed.

(** *** Unsubscribing from inside a notification pass *)

(** The array that a pass iterates, [currentListeners], is never written:
    [subscribe] and [unsubscribe] write [nextListeners] and copy it first
    when it is the current array. *)
Lemma unsubscribe_keeps_current w s r w' ls :
  arrays w !! currentListeners w = Some ls ->
  unsubscribe s w = (r, w') ->
  currentListeners w' = currentListeners w /\
  arrays w' !! currentListeners w' = Some ls.
Proof.
  intros Hcur Hu. pose proof (lookup_lt_Some _ _ _ Hcur) as Hlt.
  unfold unsubscribe, ensureCanMutateNextListeners in Hu. unfold_monad.
  simpl in Hu.
  destruct (subscriptions w !! s) as [[f [|]]|]; simpl in Hu;
    [| by injection Hu as <- <- | by injection Hu as <- <-].
  destruct (decide (nextListeners w = currentListeners w)) as [Heq | Hne];
    simpl in Hu.
  - rewrite Hcur in Hu. simpl in Hu.
    rewrite lookup_app_r, Nat.sub_diag in Hu by done. simpl in Hu.
    injection Hu as <- <-. simpl. split; [done|].
    rewrite list_lookup_insert_ne by lia. by apply lookup_app_l_Some.
  - destruct (arrays w !! nextListeners w) as [l|] eqn:Hnext; simpl in Hu;
      injection Hu as <- <-; simpl; split; try done.
    by rewrite list_lookup_insert_ne.
Qed.

Lemma subscribe_keeps_current w f r w' ls :
  arrays w !! currentListeners w = Some ls ->
  subscribe f w = (r, w') ->
  currentListeners w' = currentListeners w /\
  arrays w' !! currentListeners w' = Some ls.
Proof.
  intros Hcur Hu. pose proof (lookup_lt_Some _ _ _ Hcur) as Hlt.
  unfold subscribe, ensureCanMutateNextListeners in Hu. unfold_monad.
  destruct f as [f | v]; simpl in Hu; [| by injection Hu as <- <-].
  destruct (decide (nextListeners w = currentListeners w)) as [Heq | Hne];
    simpl in Hu.
  - rewrite Hcur in Hu. simpl in Hu.
    rewrite lookup_app_r, Nat.sub_diag in Hu by done. simpl in Hu.
    injection Hu as <- <-. simpl. split; [done|].
    rewrite list_lookup_insert_ne by lia. by apply lookup_app_l_Some.
  - destruct (arrays w !! nextListeners w) as [l|] eqn:Hnext; simpl in Hu;
      injection Hu as <- <-; simpl; split; try done.
    by rewrite list_lookup_insert_ne.
Qed.


Lemma indexOf_from_skip x pre l i :
  x ∉ pre ->
  indexOf_from x (pre ++ l) i = indexOf_from x l (i + Z.of_nat (length pre))%Z.
Proof.
  revert i. induction pre as [|y pre IH]; intros i Hx; simpl.
  - f_equal. lia.
  - rewrite decide_False by set_solver. rewrite IH by set_solver.
    f_equal. lia.
Qed.

Lemma indexOf_from_range x l i :
  indexOf_from x l i = (-1)%Z \/
  (i <= indexOf_from x l i < i + Z.of_nat (length l))%Z.
Proof.
  revert i. induction l as [|y l IH]; intros i; simpl; [by left|].
  case_decide; [right; lia|]. destruct (IH (i + 1)%Z); [by left | right; lia].
Qed.

Lemma splice_unsubscribed pre a x rest :
  x ∉ pre ->
  splice1 (indexOf x (pre ++ a :: x :: rest)) (pre ++ a :: x :: rest) =
    pre ++ a :: rest.
Proof.
  intros Hx. unfold indexOf, splice1. rewrite indexOf_from_skip by done.
  rewrite length_app. simpl.
  destruct (decide (a = x)) as [->|Hne].
  - replace (_ <? 0)%Z with false by (symmetry; apply Z.ltb_ge; lia).
    rewrite Z.min_l by lia.
    replace (Z.to_nat (0 + Z.of_nat (length pre))%Z) with (length pre) by lia.
    by rewrite delete_middle.
  - rewrite decide_True by done.
    replace (_ <? 0)%Z with false by (symmetry; apply Z.ltb_ge; lia).
    rewrite Z.min_l by lia.
    replace (Z.to_nat (0 + Z.of_nat (length pre) + 1)%Z) with (length (pre ++ [a])).
    + replace (pre ++ a :: x :: rest) with ((pre ++ [a]) ++ x :: rest)
        by (by rewrite <- app_assoc).
      rewrite delete_middle. by rewrite <- app_assoc.
    + rewrite length_app. simpl. lia.
Qed.

(** A pass over [pre ++ [L1; L3]] where [L1] calls an [unsubscribe]
    closure that has already run. *)
Lemma settled_pass call r pre L1 L2 L3 u2 fuel w :
  arrays w !! r = Some (pre ++ [L1; L3]) ->
  (forall f, f ∈ pre -> quiet (call f)) ->
  quiet (call L3) ->
  (forall w', call L1 w' = unsubscribe u2 w') ->
  subscriptions w !! u2 = Some (L2, false) ->
  length pre + 2 <= fuel ->
  exists evs,
    notify call r fuel 0 w = (Ok tt, set_trace (trace w ++ evs) w) /\
    listener_calls evs = pre ++ [L1; L3].
Proof.
  intros Hr Hpre H3 H1 Hsub Hfuel.
  replace fuel with (length pre + S (1 + (fuel - length pre - 2))) by lia.
  set (f0 := (fuel - length pre - 2)).
  destruct (notify_skip call r _ (S (1 + f0)) (length pre) 0 w Hr)
    as [evs1 [He1 Hl1]].
  { intros f. rewrite drop_0, take_app_length. apply Hpre. }
  { rewrite length_app. simpl. lia. }
  rewrite drop_0, take_app_length in Hl1.
  rewrite He1. simpl (0 + length pre).
  set (w1 := set_trace (trace w ++ evs1) w).
  rewrite (notify_one call r (pre ++ [L1; L3]) _ (length pre) L1 w1 Hr)
    by (by rewrite list_lookup_middle).
  set (w2 := set_trace _ w1).
  rewrite (bind_Ok _ _ w2 tt w2)
    by (rewrite H1; by apply (unsubscribe_inactive w2 u2 L2)).
  destruct (notify_skip call r (pre ++ [L1; L3]) f0 1 (S (length pre)) w2 Hr)
    as [evs3 [He3 Hl3]].
  { intros f. replace (pre ++ [L1; L3]) with ((pre ++ [L1]) ++ [L3])
      by (by rewrite <- app_assoc).
    rewrite drop_app_length'; [|rewrite length_app; simpl; lia].
    simpl. rewrite list_elem_of_singleton. by intros ->. }
  { rewrite length_app. simpl. lia. }
  rewrite He3.
  rewrite (notify_end call r (pre ++ [L1; L3]));
    [| exact Hr | rewrite length_app; simpl; lia].
  exists (evs1 ++ EListener L1 :: evs3). split.
  - unfold w2, w1. simpl. rewrite !set_trace_twice.
    by rewrite <- !app_assoc.
  - rewrite listener_calls_app. simpl. rewrite Hl1. f_equal. f_equal.
    rewrite Hl3.
    replace (pre ++ [L1; L3]) with ((pre ++ [L1]) ++ [L3])
      by (by rewrite <- app_assoc).
    rewrite drop_app_length'; [done | rewrite length_app; simpl; lia].
Qed.

(** The pass in which [L1] calls the [unsubscribe] closure of [L2] for
    the first time: the array being iterated is left alone, the next one
    loses [L2]. *)
Lemma first_pass call r pre L1 L2 L3 u2 fuel w :
  arrays w !! r = Some (pre ++ [L1; L2; L3]) ->
  nextListeners w = r -> currentListeners w = r ->
  (forall f, f ∈ pre -> quiet (call f)) ->
  quiet (call L2) -> quiet (call L3) ->
  (forall w', call L1 w' = unsubscribe u2 w') ->
  L2 ∉ pre ->
  subscriptions w !! u2 = Some (L2, true) ->
  length pre + 3 <= fuel ->
  exists w' evs,
    notify call r fuel 0 w = (Ok tt, w') /\
    trace w' = trace w ++ evs /\
    listener_calls evs = pre ++ [L1; L2; L3] /\
    registry w' = Some (pre ++ [L1; L3]) /\
    subscriptions w' !! u2 = Some (L2, false).
Proof.
  intros Hr Hnext Hcur Hpre H2 H3 H1 Hnotin Hsub Hfuel.
  replace fuel with (length pre + S (2 + (fuel - length pre - 3))) by lia.
  set (f0 := (fuel - length pre - 3)).
  set (ls := pre ++ [L1; L2; L3]) in *.
  destruct (notify_skip call r ls (S (2 + f0)) (length pre) 0 w Hr)
    as [evs1 [He1 Hl1]].
  { intros f. unfold ls. rewrite drop_0, take_app_length. apply Hpre. }
  { unfold ls. rewrite length_app. simpl. lia. }
  unfold ls in Hl1. rewrite drop_0, take_app_length in Hl1.
  rewrite He1. simpl (0 + length pre).
  set (w1 := set_trace (trace w ++ evs1) w).
  rewrite (notify_one call r ls _ (length pre) L1 w1 Hr)
    by (unfold ls; by rewrite list_lookup_middle).
  set (w2 := set_trace _ w1).
  destruct (unsubscribe_active w2 u2 L2 ls Hsub)
    as (w3 & Hu & Hreg3 & Hsub3 & _ & _ & _ & Htr3 & Hcur3 & Harr3).
  { unfold registry. simpl. by rewrite Hnext. }
  rewrite (bind_Ok _ _ w2 tt w3) by (by rewrite H1).
  simpl in Hcur3, Harr3. rewrite Hcur in Harr3. specialize (Harr3 Hnext).
  assert (drop (S (length pre)) ls = [L2; L3]) as Hdrop.
  { unfold ls. replace (pre ++ [L1; L2; L3]) with ((pre ++ [L1]) ++ [L2; L3])
      by (by rewrite <- app_assoc).
    apply drop_app_length'. rewrite length_app. simpl. lia. }
  destruct (notify_skip call r ls f0 2 (S (length pre)) w3 Harr3)
    as [evs3 [He3 Hl3]].
  { intros f. rewrite Hdrop. simpl.
    rewrite elem_of_cons, list_elem_of_singleton. by intros [-> | ->]. }
  { unfold ls. rewrite length_app. simpl. lia. }
  rewrite He3.
  rewrite (notify_end call r ls);
    [| exact Harr3 | unfold ls; rewrite length_app; simpl; lia].
  rewrite Hdrop in Hl3. simpl in Hl3.
  exists (set_trace (trace w3 ++ evs3) w3), (evs1 ++ EListener L1 :: evs3).
  repeat split.
  - simpl. rewrite Htr3. unfold w2, w1. simpl. by rewrite <- !app_assoc.
  - rewrite listener_calls_app. simpl. by rewrite Hl1, Hl3.
  - unfold registry in *. simpl. rewrite Hreg3. f_equal.
    unfold ls. by apply splice_unsubscribed.
  - simpl. rewrite Hsub3. apply list_lookup_insert_eq.
    by eapply lookup_lt_Some.
Qed.

Lemma calls_between_app w w' evs :
  trace w' = trace w ++ evs -> calls_between w w' = listener_calls evs.
Proof. unfold calls_between. intros ->. by rewrite drop_app_length. Qed.

Lemma settled_later pre L1 L2 L3 u2 fuel :
  (forall f, f ∈ pre -> quiet_listener f) ->
  quiet_listener L3 ->
  (forall n w, listener_body L1 (mk_store (dispatch n)) w = unsubscribe u2 w) ->
  length pre + 2 <= fuel ->
  forall n w,
    registry w = Some (pre ++ [L1; L3]) ->
    subscriptions w !! u2 = Some (L2, false) ->
    later_passes fuel (pre ++ [L1; L3]) n w.
Proof.
  intros Hpre H3 H1 Hfuel. induction n as [|n IH]; intros w Hreg Hsub; [done|].
  intros a [Hv (v & h' & Hred)]. simpl.
  rewrite (dispatch_valid _ _ _ Hv).
  rewrite (bind_Ok _ _ _ _ _ (reduce_Ok _ _ _ _ Hred)).
  unfold bind at 1 2, gets, modify. simpl.
  set (w1 := set_currentListeners _ _).
  destruct fuel as [|fuel']; [lia|].
  destruct (settled_pass (call_listener listener_body (S fuel')) (nextListeners w)
              pre L1 L2 L3 u2 (S fuel') w1) as [evs [He Hl]]; try done.
  { intros f Hf. apply (Hpre f Hf). }
  { apply H3. }
  { intros w'. apply H1. }
  rewrite (bind_Ok _ _ _ _ _ He). unfold ret.
  eexists. split; [reflexivity|]. split.
  - rewrite (calls_between_app _ _ (EReducer (currentState w) a :: evs)); [done|].
    unfold w1. simpl. by rewrite <- app_assoc.
  - by apply IH.
Qed.

(** C1. Listeners [L1], [L2], [L3] are subscribed in that order to a store
    whose earlier listeners [pre] are quiet and do not include [L2]; the
    body of [L1] calls the [unsubscribe] closure of [L2], and [L2], [L3]
    are quiet.  Then the next dispatch calls [pre], [L1], [L2], [L3] in
    registration order, and every dispatch after it calls [pre], [L1],
    [L3] only.  In general no call of an [unsubscribe] closure, in any
    world, writes the array that the running pass iterates. *)
Theorem unsubscribe_during_pass pre L1 L2 L3 w0 fuel :
  registry w0 = Some pre ->
  (forall f, f ∈ pre -> quiet_listener f) ->
  L2 ∉ pre ->
  (forall n w, listener_body L1 (mk_store (dispatch n)) w =
               unsubscribe (S (length (subscriptions w0))) w) ->
  quiet_listener L2 ->
  quiet_listener L3 ->
  length pre + 3 <= fuel ->
  (exists w1,
    (u1 <- subscribe (Fn L1) ;; u2 <- subscribe (Fn L2) ;;
     u3 <- subscribe (Fn L3) ;; ret (u1, u2, u3)) w0 =
      (Ok (length (subscriptions w0), S (length (subscriptions w0)),
           S (S (length (subscriptions w0)))), w1) /\
    forall a, dispatchable w1 a ->
      exists w2,
        dispatch fuel a w1 = (Ok a, w2) /\
        calls_between w1 w2 = pre ++ [L1; L2; L3] /\
        forall n, later_passes fuel (pre ++ [L1; L3]) n w2) /\
  (forall w s r w' ls,
     arrays w !! currentListeners w = Some ls ->
     unsubscribe s w = (r, w') ->
     currentListeners w' = currentListeners w /\
     arrays w' !! currentListeners w' = Some ls).
Proof.
  intros Hreg Hpre Hnotin H1 H2 H3 Hfuel.
  split; [| intros w s r w' ls; apply unsubscribe_keeps_current].
  destruct (subscribe_spec w0 pre L1 Hreg)
    as (wa & Hsa & Hrega & Hsuba & _).
  destruct (subscribe_spec wa _ L2 Hrega)
    as (wb & Hsb & Hregb & Hsubb & _).
  destruct (subscribe_spec wb _ L3 Hregb)
    as (w1 & Hsc & Hreg1 & Hsub1 & _).
  rewrite <- !app_assoc in Hreg1. simpl in Hreg1.
  exists w1. split.
  { rewrite (bind_Ok _ _ _ _ _ Hsa), (bind_Ok _ _ _ _ _ Hsb), (bind_Ok _ _ _ _ _ Hsc).
    unfold ret. rewrite Hsubb, Hsuba, !length_app. simpl.
    do 3 f_equal; [f_equal|]; lia. }
  intros a [Hv (v & h' & Hred)].
  rewrite (dispatch_valid _ _ _ Hv).
  rewrite (bind_Ok _ _ _ _ _ (reduce_Ok _ _ _ _ Hred)).
  unfold bind at 1 2, gets, modify. simpl.
  set (wc := set_currentListeners _ _).
  destruct fuel as [|fuel']; [lia|].
  destruct (first_pass (call_listener listener_body (S fuel')) (nextListeners w1)
              pre L1 L2 L3 (S (length (subscriptions w0))) (S fuel') wc)
    as (w2 & evs & He & Htr & Hl & Hreg2 & Hsub2); try done.
  { intros f Hf. apply (Hpre f Hf). }
  { apply H2. }
  { apply H3. }
  { intros w'. apply H1. }
  { unfold wc. simpl. rewrite Hsub1, Hsubb, Hsuba.
    rewrite lookup_app_l by (rewrite !length_app; simpl; lia).
    apply list_lookup_middle. rewrite length_app. simpl. lia. }
  rewrite (bind_Ok _ _ _ _ _ He). unfold ret.
  exists w2. split; [reflexivity|]. split.
  - rewrite (calls_between_app _ _ (EReducer (currentState w1) a :: evs)); [done|].
    rewrite Htr. unfold wc. simpl. by rewrite <- app_assoc.
  - intros n. apply (settled_later pre L1 L2 L3 (S (length (subscriptions w0))));
      try done. lia.
Qed.

(** C2. [dispatch] of [null], of a value that is not an object, or of an
    object without [type] throws an [Error], and the world it leaves is
    the world it found: same state, no reducer call and no listener call
    in the trace. *)
Theorem invalid_action_rejected fuel w a :
  invalid_action (heap w) a ->
  exists message,
    dispatch fuel a w = (Throw (Error message), w) /\
    getState w = (Ok (currentState w), w).
Proof.
  intros Hinv. cut (exists message, dispatch fuel a w = (Throw (Error message), w)).
  { intros [m Hm]. by exists m. }
  destruct fuel; simpl; unfold_monad.
  all: destruct Hinv as [-> | [Hty | (l & -> & Hnone)]];
    [ eauto
    | destruct a; simpl in *; try congruence; rewrite ?orb_true_r; eauto
    | simpl; rewrite Hnone; simpl; rewrite set_heap_id; eauto ].
Qed.

(** C10. When the reducer throws on a valid action, [dispatch] throws the
    same error; the state, the registry and the subscriptions are what
    they were, and the trace gains the reducer call and no listener
    call. *)
Theorem reducer_error_propagates fuel w a e h' :
  valid_action (heap w) a ->
  reducer w (currentState w) a (heap w) = (Throw e, h') ->
  exists w',
    dispatch fuel a w = (Throw e, w') /\
    getState w' = (Ok (currentState w), w') /\
    trace w' = trace w ++ [EReducer (currentState w) a] /\
    calls_between w w' = [] /\
    arrays w' = arrays w /\ nextListeners w' = nextListeners w /\
    currentListeners w' = currentListeners w /\
    subscriptions w' = subscriptions w /\ reducer w' = reducer w.
Proof.
  intros Hv Hred. rewrite (dispatch_valid _ _ _ Hv).
  rewrite (bind_Throw _ _ _ _ _ (reduce_Throw _ _ _ _ Hred)).
  eexists. split; [reflexivity|]. repeat split.
  by rewrite (calls_between_app _ _ [EReducer (currentState w) a]).
Qed.

(** C9. After [subscribe(L)], the first call of the returned closure
    removes one listener; a second call returns without error and leaves
    the world, registry included, as the first call left it.  The same
    holds for any later call: in every world where the closure has
    already run, calling it changes nothing. *)
Theorem unsubscribe_twice w ls L :
  registry w = Some ls ->
  exists w1 w2 ls2,
    subscribe (Fn L) w = (Ok (length (subscriptions w)), w1) /\
    unsubscribe (length (subscriptions w)) w1 = (Ok tt, w2) /\
    registry w2 = Some ls2 /\ length ls2 = length ls /\
    unsubscribe (length (subscriptions w)) w2 = (Ok tt, w2) /\
    forall w', subscriptions w' !! length (subscriptions w) = Some (L, false) ->
               unsubscribe (length (subscriptions w)) w' = (Ok tt, w').
Proof.
  intros Hreg.
  destruct (subscribe_spec w ls L Hreg) as (w1 & Hs & Hreg1 & Hsub1 & _).
  assert (subscriptions w1 !! length (subscriptions w) = Some (L, true)) as Hl.
  { rewrite Hsub1. by apply list_lookup_middle. }
  destruct (unsubscribe_active w1 _ L _ Hl Hreg1)
    as (w2 & Hu & Hreg2 & Hsub2 & _).
  assert (subscriptions w2 !! length (subscriptions w) = Some (L, false)) as Hl2.
  { rewrite Hsub2. apply list_lookup_insert_eq. by eapply lookup_lt_Some. }
  exists w1, w2, (splice1 (indexOf L (ls ++ [L])) (ls ++ [L])).
  repeat split; try done.
  - unfold splice1, indexOf.
    destruct (indexOf_from_range L (ls ++ [L]) 0%Z) as [Hm | Hrange].
    + rewrite Hm. simpl. rewrite length_delete.
      * rewrite length_app. simpl. lia.
      * apply lookup_lt_is_Some_2. rewrite length_app. simpl. lia.
    + replace (_ <? 0)%Z with false by (symmetry; apply Z.ltb_ge; lia).
      rewrite length_delete.
      * rewrite length_app. simpl. lia.
      * apply lookup_lt_is_Some_2. lia.
  - by apply (unsubscribe_inactive w2 _ L).
  - intros w' Hw'. by apply (unsubscribe_inactive w' _ L).
Qed.

(** *** Construction *)

Lemma dispatch_no_listener fuel w a v h' :
  valid_action (heap w) a ->
  reducer w (currentState w) a (heap w) = (Ok v, h') ->
  registry w = Some [] ->
  dispatch fuel a w =
    (Ok a, set_currentListeners (nextListeners w)
             (set_currentState v (set_heap h'
                (set_trace (trace w ++ [EReducer (currentState w) a]) w)))).
Proof.
  intros Hv Hr Hreg.
  rewrite (dispatch_valid _ _ _ Hv).
  rewrite (bind_Ok _ _ _ _ _ (reduce_Ok _ _ _ _ Hr)).
  unfold bind at 1 2, gets, modify. simpl.
  unfold bind. rewrite (notify_end _ (nextListeners w) []); [done | exact Hreg |].
  simpl. lia.
Qed.

Lemma init_action_valid h :
  valid_action (h ++ [init_action]) (VObj (length h)).
Proof.
  exists (length h). split; [done|]. unfold heap_get.
  rewrite list_lookup_middle by done. unfold init_action.
  by rewrite lookup_singleton_eq.
Qed.

Lemma createStore_from_plain self fuel r p w v h' :
  r (defaulted p (heap w)).1 (VObj (length (defaulted p (heap w)).2))
    ((defaulted p (heap w)).2 ++ [init_action]) = (Ok v, h') ->
  createStore_from listener_body self fuel (Fn r)
    (StateAndEnhancer p (Val VUndefined)) w =
    (Ok (mk_store (dispatch fuel)),
     World h' (arrays w ++ [[]]) (subscriptions w) v
       (length (arrays w)) (length (arrays w)) r
       (trace w ++ [EReducer (defaulted p (heap w)).1
                      (VObj (length (defaulted p (heap w)).2))])).
Proof.
  intros Hr. unfold createStore_from.
  set (p1 := (defaulted p (heap w)).1) in *.
  set (h1 := (defaulted p (heap w)).2) in *.
  set (w1 := World (h1 ++ [init_action]) (arrays w ++ [[]]) (subscriptions w) p1
               (length (arrays w)) (length (arrays w)) r (trace w)).
  assert (dispatch fuel (VObj (length h1)) w1 =
          (Ok (VObj (length h1)),
           World h' (arrays w ++ [[]]) (subscriptions w) v
             (length (arrays w)) (length (arrays w)) r
             (trace w ++ [EReducer p1 (VObj (length h1))]))) as Hd.
  { rewrite (dispatch_no_listener fuel w1 _ v h'); try done.
    - apply init_action_valid.
    - unfold registry. simpl. by apply list_lookup_middle. }
  destruct p; simpl in *; unfold bind at 1; unfold_monad; simpl;
    match goal with
    | |- context [dispatch fuel ?a ?w0] =>
        change w0 with w1; change a with (VObj (length h1))
    end; by rewrite Hd.
Qed.

(** C3 (as the code has it). [createStore(reducer)] with no preloaded state
    and no enhancer first replaces the absent state by a fresh empty
    object, the default value of the parameter, and seeds the state with
    what the reducer returns on that object and the bootstrap action. *)
Theorem createStore_seeds_from_empty_object fuel r w v h' :
  r (VObj (length (heap w))) (VObj (S (length (heap w))))
    (heap w ++ [∅; init_action]) = (Ok v, h') ->
  exists st w',
    createStore listener_body fuel (Fn r)
      (StateAndEnhancer VUndefined (Val VUndefined)) w = (Ok st, w') /\
    store_getState st w' = (Ok v, w') /\
    trace w' = trace w ++
      [EReducer (VObj (length (heap w))) (VObj (S (length (heap w))))].
Proof.
  intros Hr. unfold createStore.
  assert (length (heap w ++ [∅]) = S (length (heap w))) as Hlen
    by (rewrite length_app; simpl; lia).
  rewrite (createStore_from_plain _ fuel r VUndefined w v h').
  - eexists _, _. split; [reflexivity|]. simpl. by rewrite Hlen.
  - simpl. by rewrite Hlen, <- app_assoc.
Qed.

(** *** Middlewares *)

Lemma compose_fold_left {A} (rest : list (A -> A)) : forall (f : A -> A) (x : A),
  fold_left (fun a b => fun args => a (b args)) rest f x =
    f (foldr (fun g acc => g acc) x rest).
Proof.
  induction rest as [|g rest IH]; intros f x; simpl; [done|].
  by rewrite IH.
Qed.

Lemma compose_foldr {A} (funcs : list (A -> A)) (x : A) :
  compose funcs x = foldr (fun g acc => g acc) x funcs.
Proof.
  destruct funcs as [|f [|g rest]]; try done.
  unfold compose. by rewrite compose_fold_left.
Qed.

Lemma logMiddleware_standard before after :
  standard_shape (logMiddleware before after).
Proof.
  intros d next action.
  exists (s <- getState ;; log (EConsole before s)),
         (s <- getState ;; log (EConsole after s)).
  split; [|split].
  - intros w. exists [EConsole before (currentState w)]. by repeat constructor.
  - intros w. exists [EConsole after (currentState w)]. by repeat constructor.
  - intros w. unfold logMiddleware. unfold_monad. simpl.
    by destruct (next action _) as [[] ?].
Qed.

Lemma ready_dispatch fuel a w :
  ready fuel a w -> exists w', dispatch fuel a w = (Ok a, w').
Proof.
  intros (Hv & (v & h' & Hr) & ls & Hreg & Hq & Hf).
  destruct (dispatch_quiet fuel w a v h' ls) as [evs [He _]]; eauto.
Qed.

Lemma chain_returns_action api fuel a mws :
  api_getState api = getState ->
  Forall standard_shape mws ->
  forall w, ready fuel a w ->
    exists w', foldr (fun g acc => g acc) (dispatch fuel)
                 (map (fun mw => mw api) mws) a w = (Ok a, w').
Proof.
  intros Hapi. destruct api as [gs d]. simpl in Hapi. subst gs.
  induction 1 as [|mw mws Hmw _ IH]; intros w Hready; simpl.
  - by apply ready_dispatch.
  - destruct (Hmw d (foldr (fun g acc => g acc) (dispatch fuel)
                       (map (fun mw => mw (MiddlewareAPI getState d)) mws)) a)
      as (before & after & Hb & Ha & Heq).
    rewrite Heq.
    destruct (Hb w) as [evs [_ Hbw]].
    rewrite (bind_Ok _ _ _ _ _ Hbw).
    destruct (IH (set_trace (trace w ++ evs) w)) as [w1 Hw1]; [exact Hready|].
    rewrite (bind_Ok _ _ _ _ _ Hw1).
    destruct (Ha w1) as [evs' [_ Haw]].
    rewrite (bind_Ok _ _ _ _ _ Haw).
    by eexists.
Qed.

Lemma composed_dispatch_eq mws st fuel :
  composed_dispatch mws st fuel =
    compose (map (fun mw => mw (MiddlewareAPI (store_getState st)
               (fun action =>
                  match fuel with
                  | O => out_of_fuel
                  | S fuel' => composed_dispatch mws st fuel' action
                  end))) mws) (store_dispatch st).
Proof. by destruct fuel. Qed.

Lemma bind_Ok_inv {S A B} (m : ST S A) (k : A -> ST S B) s b s' :
  bind m k s = (Ok b, s') ->
  exists a s1, m s = (Ok a, s1) /\ k a s1 = (Ok b, s').
Proof.
  unfold bind. destruct (m s) as [[a | e |] s1]; [eauto | done | done].
Qed.

(** Whatever the listeners do, a dispatch that returns returns its
    argument. *)
Lemma dispatch_result fuel a w r w' :
  dispatch fuel a w = (Ok r, w') -> r = a.
Proof.
  intros Hd.
  destruct fuel; simpl in Hd;
    repeat (apply bind_Ok_inv in Hd as (? & ? & _ & Hd));
    unfold ret in Hd; congruence.
Qed.

Lemma chain_result api fuel a mws :
  api_getState api = getState ->
  Forall standard_shape mws ->
  forall w r w',
    foldr (fun g acc => g acc) (dispatch fuel) (map (fun mw => mw api) mws) a w
      = (Ok r, w') -> r = a.
Proof.
  intros Hapi. destruct api as [gs d]. simpl in Hapi. subst gs.
  induction 1 as [|mw mws Hmw _ IH]; intros w r w' Hd; simpl in Hd.
  - by apply dispatch_result in Hd.
  - destruct (Hmw d (foldr (fun g acc => g acc) (dispatch fuel)
                       (map (fun mw => mw (MiddlewareAPI getState d)) mws)) a)
      as (before & after & _ & _ & Heq).
    rewrite Heq in Hd.
    apply bind_Ok_inv in Hd as (? & w1 & _ & Hd).
    apply bind_Ok_inv in Hd as (r1 & w2 & Hnext & Hd).
    apply bind_Ok_inv in Hd as (? & w3 & _ & Hd).
    unfold ret in Hd. injection Hd as <- _. by apply IH in Hnext.
Qed.

(** C6. Around a store, any number of middlewares of the standard shape
    (none for the bare store): a dispatch that returns, returns the very
    action it was given, whatever the listeners do; and it does return
    when the action is valid, the reducer returns on it and the listeners
    are quiet. *)
Theorem dispatch_returns_action mws fuel fuel' a :
  Forall standard_shape mws ->
  (forall w r w',
     composed_dispatch mws (mk_store (dispatch fuel)) fuel' a w = (Ok r, w') ->
     r = a) /\
  (forall w v h' ls,
     valid_action (heap w) a ->
     reducer w (currentState w) a (heap w) = (Ok v, h') ->
     registry w = Some ls ->
     (forall f, f ∈ ls -> quiet_listener f) ->
     length ls <= fuel ->
     (exists w', store_dispatch (mk_store (dispatch fuel)) a w = (Ok a, w')) /\
     (exists w', composed_dispatch mws (mk_store (dispatch fuel)) fuel' a w = (Ok a, w'))).
Proof.
  intros Hstd. split.
  - intros w r w'. rewrite composed_dispatch_eq, compose_foldr.
    by apply chain_result.
  - intros w v h' ls Hv Hr Hreg Hq Hfuel.
    assert (ready fuel a w) as Hready by (split; [|split]; eauto 10).
    split; [by apply ready_dispatch|].
    rewrite composed_dispatch_eq, compose_foldr.
    by apply chain_returns_action.
Qed.

Lemma createStore_enhanced fuel fuel' mws r p w v h' :
  r (defaulted p (heap w)).1 (VObj (length (defaulted p (heap w)).2))
    ((defaulted p (heap w)).2 ++ [init_action]) = (Ok v, h') ->
  createStore listener_body fuel (Fn r)
    (StateAndEnhancer p (Fn (applyMiddleware fuel' mws))) w =
    (Ok {| store_getState := getState;
           store_dispatch := composed_dispatch mws (mk_store (dispatch fuel)) fuel';
           store_subscribe := subscribe;
           store_replaceReducer := replaceReducer (dispatch fuel) |},
     World h' (arrays w ++ [[]]) (subscriptions w) v
       (length (arrays w)) (length (arrays w)) r
       (trace w ++ [EReducer (defaulted p (heap w)).1
                      (VObj (length (defaulted p (heap w)).2))])).
Proof.
  intros Hr. unfold createStore, createStore_from at 1.
  destruct p; simpl in *; unfold bind at 1; unfold_monad; simpl;
    unfold applyMiddleware, createStore_plain; unfold bind at 1;
    match goal with
    | |- context [createStore_from ?lb ?self ?f ?r0 (StateAndEnhancer ?q _) ?w0] =>
        rewrite (createStore_from_plain self f r q w0 v h') by exact Hr
    end; reflexivity.
Qed.

(** C7. A store is built with [applyMiddleware(mw1, mw2)], both of the
    shape of [printStateMiddleware].  On a dispatch, the console shows the
    line of [mw1] before that of [mw2], then the store's own dispatch runs
    (reducer, then listeners), then the after-line of [mw2] comes before
    that of [mw1]. *)
Theorem middleware_order b1 a1 b2 a2 fuel fuel' r p w0 v0 h0 :
  r (defaulted p (heap w0)).1 (VObj (length (defaulted p (heap w0)).2))
    ((defaulted p (heap w0)).2 ++ [init_action]) = (Ok v0, h0) ->
  exists st w1,
    createStore listener_body fuel (Fn r)
      (StateAndEnhancer p
         (Fn (applyMiddleware fuel' [logMiddleware b1 a1; logMiddleware b2 a2])))
      w0 = (Ok st, w1) /\
    forall w a v h' ls,
      valid_action (heap w) a ->
      reducer w (currentState w) a (heap w) = (Ok v, h') ->
      registry w = Some ls ->
      (forall f, f ∈ ls -> quiet_listener f) ->
      length ls <= fuel ->
      exists w' evs,
        store_dispatch st a w = (Ok a, w') /\
        trace w' = trace w ++
          [EConsole b1 (currentState w); EConsole b2 (currentState w);
           EReducer (currentState w) a] ++ evs ++
          [EConsole a2 v; EConsole a1 v] /\
        listener_calls evs = ls.
Proof.
  intros Hinit. eexists _, _. split.
  { by apply createStore_enhanced. }
  intros w a v h' ls Hv Hr Hreg Hq Hfuel. simpl.
  rewrite composed_dispatch_eq. simpl.
  unfold logMiddleware. unfold_monad. simpl.
  match goal with
  | |- context [dispatch fuel a ?w0] =>
      destruct (dispatch_quiet fuel w0 a v h' ls) as [evs [He Hl]];
        [done | done | done | done | done |]
  end.
  rewrite He. simpl.
  eexists _, evs. split; [reflexivity|]. split; [|done].
  simpl. rewrite <- !app_assoc. reflexivity.
Qed.

(** ** Further properties of the engine *)

(** *** What [indexOf] finds and what [splice] removes *)

Lemma indexOf_from_found x l : forall i,
  x ∈ l ->
  exists k, indexOf_from x l i = (i + Z.of_nat k)%Z /\
            l !! k = Some x /\ x ∉ take k l.
Proof.
  induction l as [|y l IH]; intros i Hx; [by apply elem_of_nil in Hx|].
  simpl. destruct (decide (y = x)) as [-> | Hne].
  - exists 0. split; [lia|]. split; [done|]. simpl. apply not_elem_of_nil.
  - apply elem_of_cons in Hx as [-> | Hx]; [done|].
    destruct (IH (i + 1)%Z Hx) as (k & Hk & Hl & Hn).
    exists (S k). split; [lia|]. split; [done|]. simpl.
    rewrite not_elem_of_cons. split; [congruence | done].
Qed.

Lemma splice1_found x l :
  x ∈ l ->
  exists k, splice1 (indexOf x l) l = delete k l /\
            l !! k = Some x /\ x ∉ take k l.
Proof.
  intros Hx. destruct (indexOf_from_found x l 0%Z Hx) as (k & Hk & Hl & Hn).
  exists k. split; [|done]. unfold splice1, indexOf. rewrite Hk.
  pose proof (lookup_lt_Some _ _ _ Hl).
  replace (_ <? 0)%Z with false by (symmetry; apply Z.ltb_ge; lia).
  rewrite Z.min_l by lia. f_equal. lia.
Qed.

(** X5. Subscribing a listener and calling the returned closure leaves the
    same listeners registered.  The order is the same when the listener
    was not registered before; when it was, it is its earliest
    registration that goes and the new one, at the end, that stays. *)
Theorem subscribe_unsubscribe_round_trip w ls f :
  registry w = Some ls ->
  exists w1 w2 ls2,
    subscribe (Fn f) w = (Ok (length (subscriptions w)), w1) /\
    unsubscribe (length (subscriptions w)) w1 = (Ok tt, w2) /\
    registry w2 = Some ls2 /\
    ls2 ≡ₚ ls /\
    (f ∉ ls -> ls2 = ls) /\
    (forall l1 l2, ls = l1 ++ f :: l2 -> f ∉ l1 -> ls2 = l1 ++ l2 ++ [f]).
Proof.
  intros Hreg.
  destruct (subscribe_spec w ls f Hreg) as (w1 & Hs & Hreg1 & Hsub1 & _).
  assert (subscriptions w1 !! length (subscriptions w) = Some (f, true)) as Hl.
  { rewrite Hsub1. by apply list_lookup_middle. }
  destruct (unsubscribe_active w1 _ f _ Hl Hreg1) as (w2 & Hu & Hreg2 & _).
  destruct (splice1_found f (ls ++ [f])) as (k & Hk & Hlk & Hnk);
    [set_solver|].
  rewrite Hk in Hreg2.
  exists w1, w2, (delete k (ls ++ [f])). repeat split; try done.
  - apply (Permutation_cons_inv (a := f)).
    rewrite <- (delete_Permutation _ _ _ Hlk).
    by rewrite Permutation_app_comm.
  - intros Hnot. destruct (decide (k = length ls)) as [-> | Hne].
    + replace (ls ++ [f]) with (ls ++ f :: []) by done.
      by rewrite delete_middle, app_nil_r.
    + exfalso. apply Hnot. pose proof (lookup_lt_Some _ _ _ Hlk) as Hlt.
      rewrite length_app in Hlt. simpl in Hlt.
      rewrite lookup_app_l in Hlk by lia. by eapply list_elem_of_lookup_2.
  - intros l1 l2 -> Hnot.
    assert (k = length l1) as ->.
    { destruct (Nat.lt_trichotomy k (length l1)) as [Hlt | [-> | Hgt]]; [|done|].
      - exfalso. apply Hnot. rewrite <- app_assoc, lookup_app_l in Hlk by lia.
        by eapply list_elem_of_lookup_2.
      - exfalso. apply Hnk. rewrite <- app_assoc.
        rewrite take_app_ge by lia.
        apply elem_of_app. right.
        destruct (k - length l1) as [|j] eqn:Hj; [lia|]. simpl.
        apply elem_of_cons. by left. }
    rewrite <- app_assoc. simpl. by rewrite delete_middle.
Qed.


(** X1. With quiet listeners, a dispatch of a valid action on which the
    reducer returns [v] ends with [getState()] returning [v]; the heap is
    the one the reducer left, every registered listener has been called
    once, in registration order, and the registry, the subscriptions and
    the reducer are what they were.  After it the current array is the
    next one. *)
Theorem dispatch_updates_state fuel w a v h' ls :
  valid_action (heap w) a ->
  reducer w (currentState w) a (heap w) = (Ok v, h') ->
  registry w = Some ls ->
  (forall f, f ∈ ls -> quiet_listener f) ->
  length ls <= fuel ->
  exists w',
    dispatch fuel a w = (Ok a, w') /\
    getState w' = (Ok v, w') /\
    heap w' = h' /\
    calls_between w w' = ls /\
    registry w' = Some ls /\
    currentListeners w' = nextListeners w' /\
    subscriptions w' = subscriptions w /\
    reducer w' = reducer w.
Proof.
  intros Hv Hr Hreg Hq Hfuel.
  destruct (dispatch_quiet fuel w a v h' ls) as [evs [He Hl]]; try done.
  eexists. split; [exact He|].
  repeat split; try done.
  by rewrite (calls_between_app _ _ (EReducer (currentState w) a :: evs)).
Qed.

(** X2. The loop of [dispatch] has no handler: when a listener throws, the
    dispatch throws the same error after the state has been replaced, and
    the listeners registered after the failing one are not called. *)
Theorem listener_error_aborts_pass fuel w a v h' pre L rest e :
  valid_action (heap w) a ->
  reducer w (currentState w) a (heap w) = (Ok v, h') ->
  registry w = Some (pre ++ L :: rest) ->
  (forall f, f ∈ pre -> quiet_listener f) ->
  (forall n w1, listener_body L (mk_store (dispatch n)) w1 = (Throw e, w1)) ->
  length pre < fuel ->
  exists w',
    dispatch fuel a w = (Throw e, w') /\
    getState w' = (Ok v, w') /\
    calls_between w w' = pre ++ [L].
Proof.
  intros Hv Hr Hreg Hq HL Hfuel.
  rewrite (dispatch_valid _ _ _ Hv).
  rewrite (bind_Ok _ _ _ _ _ (reduce_Ok _ _ _ _ Hr)).
  unfold bind at 1 2, gets, modify. simpl.
  set (w1 := set_currentListeners _ _).
  destruct fuel as [|fuel']; [lia|].
  set (call := call_listener listener_body (S fuel')).
  replace (notify call (nextListeners w) (S fuel') 0)
    with (notify call (nextListeners w) (length pre + S (fuel' - length pre)) 0)
    by (f_equal; lia).
  destruct (notify_skip call (nextListeners w) (pre ++ L :: rest)
              (S (fuel' - length pre)) (length pre) 0 w1 Hreg)
    as [evs [He Hl]].
  { intros f. rewrite drop_0, take_app_length. intros Hf n. apply (Hq f Hf). }
  { rewrite length_app. simpl. lia. }
  rewrite drop_0, take_app_length in Hl.
  unfold bind at 1. rewrite He. simpl (0 + length pre).
  rewrite (notify_one call _ (pre ++ L :: rest) _ (length pre) L)
    by (done || by rewrite list_lookup_middle).
  unfold bind at 1. unfold call at 1. simpl. rewrite HL.
  eexists. split; [reflexivity|]. split; [reflexivity|].
  rewrite (calls_between_app _ _
             (EReducer (currentState w) a :: evs ++ [EListener L])).
  - simpl. by rewrite listener_calls_app, Hl.
  - unfold w1. simpl. by rewrite <- !app_assoc.
Qed.

(** X3. Nothing guards against a dispatch made from inside a listener: when
    the first listener dispatches the action again, unconditionally, and
    the reducer always returns, the dispatch never returns, however much
    fuel it is given. *)
Theorem reentrant_dispatch_never_returns w a L rest :
  valid_action (heap w) a ->
  (forall s, exists v, reducer w s a (heap w) = (Ok v, heap w)) ->
  registry w = Some (L :: rest) ->
  (forall n w1, listener_body L (mk_store (dispatch n)) w1 =
                (dispatch n a ;; ret tt) w1) ->
  forall fuel, exists w', dispatch fuel a w = (OutOfFuel, w').
Proof.
  intros Hv Hr Hreg HL fuel.
  cut (forall w1, heap w1 = heap w -> reducer w1 = reducer w ->
                  registry w1 = Some (L :: rest) ->
                  exists w', dispatch fuel a w1 = (OutOfFuel, w')).
  { intros Hall. by apply Hall. }
  induction fuel as [|n IH]; intros w1 Hh Hred Hreg1.
  - rewrite dispatch_valid by (by rewrite Hh).
    destruct (Hr (currentState w1)) as [v Hrv].
    rewrite <- Hh, <- Hred in Hrv.
    rewrite (bind_Ok _ _ _ _ _ (reduce_Ok _ _ _ _ Hrv)).
    unfold bind at 1 2, gets, modify. simpl.
    unfold bind, read_array. simpl. unfold registry in Hreg1. rewrite Hreg1.
    simpl. by eexists.
  - rewrite dispatch_valid by (by rewrite Hh).
    destruct (Hr (currentState w1)) as [v Hrv].
    rewrite <- Hh, <- Hred in Hrv.
    rewrite (bind_Ok _ _ _ _ _ (reduce_Ok _ _ _ _ Hrv)).
    remember (S n) as m eqn:Hm.
    unfold bind at 1 2, gets, modify. simpl.
    set (w2 := set_currentListeners _ _). subst m.
    unfold bind at 1.
    rewrite (notify_one _ (nextListeners w1) (L :: rest) n 0 L w2) by done.
    unfold bind at 1. unfold call_listener at 1. rewrite HL.
    destruct (IH (set_trace (trace w2 ++ [EListener L]) w2)) as [w' Hw'];
      [done | done | done |].
    unfold bind at 1. rewrite Hw'. by eexists.
Qed.

(** X4. A listener subscribed from inside a notification pass is not called
    in that pass and is called, last, in the next one: [L1], the last
    registered listener, subscribes [L2] each time it runs. *)
Theorem subscribe_during_pass fuel w a pre L1 L2 :
  dispatchable w a ->
  registry w = Some (pre ++ [L1]) ->
  (forall f, f ∈ pre -> quiet_listener f) ->
  quiet_listener L2 ->
  (forall n w1, listener_body L1 (mk_store (dispatch n)) w1 =
                (subscribe (Fn L2) ;; ret tt) w1) ->
  length pre + 2 <= fuel ->
  exists w1,
    dispatch fuel a w = (Ok a, w1) /\
    calls_between w w1 = pre ++ [L1] /\
    registry w1 = Some (pre ++ [L1; L2]) /\
    forall a', dispatchable w1 a' ->
      exists w2,
        dispatch fuel a' w1 = (Ok a', w2) /\
        calls_between w1 w2 = pre ++ [L1; L2] /\
        registry w2 = Some (pre ++ [L1; L2; L2]).
Proof.
  intros Hd Hreg Hpre H2 H1 Hfuel.
  assert (forall w0 b rest,
            dispatchable w0 b ->
            registry w0 = Some (pre ++ L1 :: rest) ->
            (forall f, f ∈ rest -> quiet_listener f) ->
            length pre + 1 + length rest <= fuel ->
            exists w1,
              dispatch fuel b w0 = (Ok b, w1) /\
              calls_between w0 w1 = pre ++ L1 :: rest /\
              registry w1 = Some (pre ++ L1 :: rest ++ [L2])) as Hpass.
  { clear w a Hd Hreg. intros w a rest [Hv (v & h' & Hr)] Hreg Hrest Hf.
    rewrite (dispatch_valid _ _ _ Hv).
    rewrite (bind_Ok _ _ _ _ _ (reduce_Ok _ _ _ _ Hr)).
    unfold bind at 1 2, gets, modify. simpl.
    set (w1 := set_currentListeners _ _).
    destruct fuel as [|fuel']; [lia|].
    set (call := call_listener listener_body (S fuel')).
    set (ls := pre ++ L1 :: rest) in *.
    replace (notify call (nextListeners w) (S fuel') 0)
      with (notify call (nextListeners w)
              (length pre + S (length rest + (fuel' - length pre - length rest))) 0)
      by (f_equal; lia).
    destruct (notify_skip call (nextListeners w) ls
                (S (length rest + (fuel' - length pre - length rest)))
                (length pre) 0 w1 Hreg) as [evs [He Hl]].
    { intros f. unfold ls. rewrite drop_0, take_app_length.
      intros Hf' n. apply (Hpre f Hf'). }
    { unfold ls. rewrite length_app. simpl. lia. }
    unfold ls in Hl. rewrite drop_0, take_app_length in Hl.
    unfold bind at 1. rewrite He. simpl (0 + length pre).
    set (w2 := set_trace (trace w1 ++ evs) w1).
    rewrite (notify_one call _ ls _ (length pre) L1 w2)
      by (done || (unfold ls; by rewrite list_lookup_middle)).
    set (w3 := set_trace _ w2).
    destruct (subscribe_spec w3 ls L2) as (w4 & Hs & Hreg4 & _ & _ & _ & _ & Htr);
      [exact Hreg|].
    destruct (subscribe_keeps_current w3 (Fn L2) (Ok (length (subscriptions w3))) w4 ls)
      as [Hcur4 Harr4];
      [exact Hreg | exact Hs |].
    simpl in Hcur4. rewrite Hcur4 in Harr4.
    unfold bind at 1. unfold call at 1. simpl. rewrite H1.
    rewrite (bind_Ok _ _ _ _ _ Hs). unfold ret at 1.
    assert (drop (S (length pre)) ls = rest) as Hdrop.
    { unfold ls. replace (pre ++ L1 :: rest) with ((pre ++ [L1]) ++ rest)
        by (by rewrite <- app_assoc).
      apply drop_app_length'. rewrite length_app. simpl. lia. }
    destruct (notify_skip call (nextListeners w) ls
                (fuel' - length pre - length rest) (length rest)
                (S (length pre)) w4 Harr4) as [evs' [He' Hl']].
    { intros f. rewrite Hdrop, firstn_all. intros Hf' n. apply (Hrest f Hf'). }
    { unfold ls. rewrite length_app. simpl. lia. }
    rewrite Hdrop, firstn_all in Hl'.
    rewrite He'.
    rewrite (notify_end call _ ls);
      [| exact Harr4 | unfold ls; rewrite length_app; simpl; lia].
    unfold ret. eexists. split; [reflexivity|]. split.
    - rewrite (calls_between_app _ _
        (EReducer (currentState w) a :: evs ++ EListener L1 :: evs')).
      + simpl. rewrite listener_calls_app. simpl. by rewrite Hl, Hl'.
      + simpl. rewrite Htr. unfold w3, w2, w1. simpl.
        by rewrite <- !app_assoc.
    - unfold registry in *. simpl. rewrite Hreg4. unfold ls.
      by rewrite <- app_assoc. }
  destruct (Hpass w a [] Hd Hreg) as (w1 & Hd1 & Hc1 & Hr1).
  { intros f Hf. by apply elem_of_nil in Hf. }
  { simpl. lia. }
  exists w1. split; [done|]. split; [done|]. split; [done|].
  intros a' Hd'.
  destruct (Hpass w1 a' [L2] Hd' Hr1) as (w2 & Hd2 & Hc2 & Hr2).
  { intros f Hf. apply list_elem_of_singleton in Hf. by subst. }
  { simpl. lia. }
  by exists w2.
Qed.

(** X7. [replaceReducer] rejects what is not a function and leaves the
    world alone.  Given a function, it installs it and dispatches the
    bootstrap action: the state is not reset, the new reducer is applied to
    the current state, and the listeners are notified like on any
    dispatch. *)
Theorem replaceReducer_redispatches fuel w :
  (forall x d, replaceReducer d (Val x) w =
               (Throw (Error "Expected the reducer to be a function."), w)) /\
  (forall r' v h' ls,
     r' (currentState w) (VObj (length (heap w))) (heap w ++ [init_action]) =
       (Ok v, h') ->
     registry w = Some ls ->
     (forall f, f ∈ ls -> quiet_listener f) ->
     length ls <= fuel ->
     exists w' evs,
       replaceReducer (dispatch fuel) (Fn r') w = (Ok tt, w') /\
       reducer w' = r' /\
       getState w' = (Ok v, w') /\
       trace w' = trace w ++
         EReducer (currentState w) (VObj (length (heap w))) :: evs /\
       listener_calls evs = ls /\
       registry w' = Some ls).
Proof.
  split; [done|].
  intros r' v h' ls Hr Hreg Hq Hfuel.
  unfold replaceReducer. unfold bind at 1, modify.
  unfold bind at 1, lift_heap, alloc. simpl.
  set (w1 := set_heap _ _).
  destruct (dispatch_quiet fuel w1 (VObj (length (heap w))) v h' ls)
    as [evs [He Hl]]; try done.
  { apply init_action_valid. }
  unfold bind at 1. rewrite He. unfold ret.
  eexists _, evs. split; [reflexivity|]. by repeat split.
Qed.

(** X8. [createStore] checks its reducer first and then its enhancer: what
    is not a function is rejected with an [Error], no store is set up and
    no reducer is called; at most the default empty state object has been
    allocated. *)
Theorem createStore_rejects fuel w :
  (forall x rest, exists w',
     createStore listener_body fuel (Val x) rest w =
       (Throw (Error "Expected the reducer to be a function."), w') /\
     (w' = w \/ w' = set_heap (heap w ++ [∅]) w)) /\
  (forall r p x, x <> VUndefined -> exists w',
     createStore listener_body fuel (Fn r) (StateAndEnhancer p (Val x)) w =
       (Throw (Error "Expected the enhancer to be a function."), w') /\
     (w' = w \/ w' = set_heap (heap w ++ [∅]) w)).
Proof.
  split.
  - intros x [p e | f]; unfold createStore, createStore_from; [destruct p|];
      unfold_monad; simpl; rewrite ?set_heap_id; eauto.
  - intros r p x Hx. unfold createStore, createStore_from.
    destruct p, x; try done; unfold_monad; simpl; rewrite ?set_heap_id; eauto.
Qed.

(** X9. The two-argument form [createStore(reducer, enhancer)] hands the
    enhancer an absent state, the three-argument form with an absent state
    hands it the default empty object; with an [applyMiddleware] enhancer
    the two forms build the same store in the same world. *)
Theorem createStore_enhancer_second fuel fuel' mws r w :
  createStore listener_body fuel (Fn r)
    (EnhancerSecond (applyMiddleware fuel' mws)) w =
  createStore listener_body fuel (Fn r)
    (StateAndEnhancer VUndefined (Fn (applyMiddleware fuel' mws))) w.
Proof.
  unfold createStore, createStore_from, applyMiddleware, createStore_plain,
    createStore_from.
  unfold_monad. simpl. reflexivity.
Qed.

Lemma createStore_from_store self fuel r p w st w' :
  createStore_from listener_body self fuel (Fn r)
    (StateAndEnhancer p (Val VUndefined)) w = (Ok st, w') ->
  st = mk_store (dispatch fuel).
Proof.
  unfold createStore_from. intros Hc.
  apply bind_Ok_inv in Hc as (rest & w1 & Hrest & Hc).
  assert (exists p1, rest = StateAndEnhancer p1 (Val VUndefined)) as [p1 ->].
  { destruct p; unfold_monad; simpl in Hrest; injection Hrest as <- _; eauto. }
  simpl in Hc.
  repeat (apply bind_Ok_inv in Hc as (? & ? & _ & Hc)).
  unfold ret in Hc. by injection Hc as <- _.
Qed.

(** X10. [applyMiddleware()] with no middleware is neutral: the store it
    builds, the world it leaves and the errors it raises are those of
    [createStore] without enhancer. *)
Theorem applyMiddleware_none fuel fuel' reducer p w :
  createStore listener_body fuel reducer
    (StateAndEnhancer p (Fn (applyMiddleware fuel' []))) w =
  createStore listener_body fuel reducer
    (StateAndEnhancer p (Val VUndefined)) w.
Proof.
  assert (forall d, composed_dispatch [] (mk_store d) fuel' = d) as Hcomp
    by (intros d; by destruct fuel').
  destruct reducer as [r | x].
  - assert (forall q w1,
              applyMiddleware fuel' [] (createStore_plain listener_body fuel) (Fn r) q w1 =
              createStore_plain listener_body fuel (Fn r) q w1) as Hneutral.
    { intros q w1. unfold applyMiddleware, bind.
      destruct (createStore_plain listener_body fuel (Fn r) q w1)
        as [[st | e |] w2] eqn:Hc; try done.
      apply createStore_from_store in Hc as ->. unfold ret. simpl.
      by rewrite Hcomp. }
    unfold createStore, createStore_from at 1.
    destruct p; unfold bind at 1; unfold_monad; simpl;
      rewrite ?set_heap_id;
      match goal with
      | |- applyMiddleware _ _ _ _ ?q ?w1 = _ =>
          rewrite (Hneutral q w1)
      end; unfold createStore_plain, createStore_from; unfold_monad; simpl;
      rewrite ?set_heap_id; reflexivity.
  - unfold createStore, createStore_from.
    destruct p; unfold_monad; simpl; reflexivity.
Qed.

Lemma createStore_from_throws self fuel r p w e h' :
  r (defaulted p (heap w)).1 (VObj (length (defaulted p (heap w)).2))
    ((defaulted p (heap w)).2 ++ [init_action]) = (Throw e, h') ->
  exists w',
    createStore_from listener_body self fuel (Fn r)
      (StateAndEnhancer p (Val VUndefined)) w = (Throw e, w').
Proof.
  intros Hr. unfold createStore_from.
  set (p1 := (defaulted p (heap w)).1) in *.
  set (h1 := (defaulted p (heap w)).2) in *.
  set (w1 := World (h1 ++ [init_action]) (arrays w ++ [[]]) (subscriptions w) p1
               (length (arrays w)) (length (arrays w)) r (trace w)).
  assert (exists w', dispatch fuel (VObj (length h1)) w1 = (Throw e, w')) as [w' Hd].
  { rewrite dispatch_valid by apply init_action_valid.
    erewrite bind_Throw; [by eexists|]. by apply reduce_Throw. }
  exists w'.
  destruct p; simpl in *; unfold bind at 1; unfold_monad; simpl;
    match goal with
    | |- context [dispatch fuel ?a ?w0] =>
        change w0 with w1; change a with (VObj (length h1))
    end; by rewrite Hd.
Qed.

(** X11. [createStore(reducer, preloadedState)] with a state that is given:
    the bootstrap dispatch applies the reducer to that state, and what it
    returns is the state of the new store, which has no listener yet and
    whose two listener arrays are one.  If the reducer throws on the
    bootstrap action, so does [createStore], and there is no store. *)
Theorem createStore_preloaded fuel r p w :
  p <> VUndefined ->
  (forall v h',
     r p (VObj (length (heap w))) (heap w ++ [init_action]) = (Ok v, h') ->
     exists st w',
       createStore listener_body fuel (Fn r)
         (StateAndEnhancer p (Val VUndefined)) w = (Ok st, w') /\
       store_getState st w' = (Ok v, w') /\
       reducer w' = r /\
       registry w' = Some [] /\
       currentListeners w' = nextListeners w' /\
       trace w' = trace w ++ [EReducer p (VObj (length (heap w)))]) /\
  (forall e h',
     r p (VObj (length (heap w))) (heap w ++ [init_action]) = (Throw e, h') ->
     exists w',
       createStore listener_body fuel (Fn r)
         (StateAndEnhancer p (Val VUndefined)) w = (Throw e, w')).
Proof.
  intros Hp.
  assert (defaulted p (heap w) = (p, heap w)) as Hdef by (by destruct p).
  split.
  - intros v h' Hr. unfold createStore.
    rewrite (createStore_from_plain _ fuel r p w v h') by (by rewrite Hdef).
    rewrite Hdef. eexists _, _. split; [reflexivity|]. simpl.
    repeat split. unfold registry. simpl. by apply list_lookup_middle.
  - intros e h' Hr. unfold createStore.
    apply (createStore_from_throws _ fuel r p w e h'). by rewrite Hdef.
Qed.

(** *** Chains of logging middlewares *)

Lemma log_chain api fuel a labels :
  api_getState api = getState ->
  forall w v h' ls,
    valid_action (heap w) a ->
    reducer w (currentState w) a (heap w) = (Ok v, h') ->
    registry w = Some ls ->
    (forall f, f ∈ ls -> quiet_listener f) ->
    length ls <= fuel ->
    exists w' evs,
      foldr (fun g acc => g acc) (dispatch fuel)
        (map (fun mw => mw api) (logMiddlewares labels)) a w = (Ok a, w') /\
      trace w' = trace w ++
        map (fun l : string * string => EConsole l.1 (currentState w)) labels ++
        [EReducer (currentState w) a] ++ evs ++
        map (fun l : string * string => EConsole l.2 v) (reverse labels) /\
      listener_calls evs = ls /\
      currentState w' = v.
Proof.
  intros Hapi. destruct api as [gs d]. simpl in Hapi. subst gs.
  induction labels as [|[b c] labels IH]; intros w v h' ls Hv Hr Hreg Hq Hfuel.
  - destruct (dispatch_quiet fuel w a v h' ls) as [evs [He Hl]]; try done.
    eexists _, evs. split; [exact He|]. simpl. by rewrite app_nil_r.
  - simpl. unfold logMiddleware at 1. simpl.
    unfold bind at 1, getState, gets. unfold bind at 1, log, modify.
    set (w1 := set_trace _ w).
    destruct (IH w1 v h' ls) as (w2 & evs & He & Htr & Hl & Hs); try done.
    erewrite bind_Ok by exact He.
    unfold_monad. simpl.
    eexists _, evs. split; [reflexivity|]. simpl. rewrite Hs, Htr.
    split; [|done]. unfold w1. simpl.
    rewrite reverse_cons, map_app. simpl.
    repeat (progress (rewrite <- ?app_assoc; simpl)). reflexivity.
Qed.

(** X12. Around the store's own dispatch, any number of logging middlewares
    nest in the order they were given to [applyMiddleware]: the console
    shows their before-lines first to last, with the state before the
    reducer ran, then the reducer and the listeners run, then their
    after-lines last to first, with the new state. *)
Theorem middleware_chain_order labels fuel fuel' w a v h' ls :
  valid_action (heap w) a ->
  reducer w (currentState w) a (heap w) = (Ok v, h') ->
  registry w = Some ls ->
  (forall f, f ∈ ls -> quiet_listener f) ->
  length ls <= fuel ->
  exists w' evs,
    composed_dispatch (logMiddlewares labels) (mk_store (dispatch fuel)) fuel' a w =
      (Ok a, w') /\
    trace w' = trace w ++
      map (fun l : string * string => EConsole l.1 (currentState w)) labels ++
      [EReducer (currentState w) a] ++ evs ++
      map (fun l : string * string => EConsole l.2 v) (reverse labels) /\
    listener_calls evs = ls.
Proof.
  intros Hv Hr Hreg Hq Hfuel.
  rewrite composed_dispatch_eq, compose_foldr.
  match goal with
  | |- context [map (fun mw => mw ?api) _] =>
      destruct (log_chain api fuel a labels eq_refl w v h' ls)
        as (w' & evs & He & Htr & Hl & _); try done
  end.
  exists w', evs. split; [exact He|]. by split.
Qed.

(** X19. A listener is called from the dispatch that follows its
    subscription on, after the listeners registered before it; [subscribe]
    itself calls nobody and leaves state and reducer alone.  What is not a
    function is rejected and nothing is registered. *)
Theorem subscribe_then_dispatch fuel w ls f :
  (forall v, subscribe (Val v) w =
             (Throw (Error "Expected the listener to be a function."), w)) /\
  (registry w = Some ls ->
   (forall g, g ∈ ls ++ [f] -> quiet_listener g) ->
   length ls < fuel ->
   exists w1,
     subscribe (Fn f) w = (Ok (length (subscriptions w)), w1) /\
     trace w1 = trace w /\ currentState w1 = currentState w /\
     reducer w1 = reducer w /\
     forall a, dispatchable w1 a ->
       exists w2, dispatch fuel a w1 = (Ok a, w2) /\
                  calls_between w1 w2 = ls ++ [f]).
Proof.
  split; [done|]. intros Hreg Hq Hfuel.
  destruct (subscribe_spec w ls f Hreg)
    as (w1 & Hs & Hreg1 & _ & _ & Hst & Hred & Htr).
  exists w1. repeat split; try done.
  intros a [Hv (v & h' & Hr)].
  destruct (dispatch_quiet fuel w1 a v h' (ls ++ [f])) as [evs [He Hl]];
    try done.
  { rewrite length_app. simpl. lia. }
  eexists. split; [exact He|].
  by rewrite (calls_between_app _ _ (EReducer (currentState w1) a :: evs)).
Qed.

End EngineProperties.

(** ** compose *)

(** C8. [compose()] is the identity, [compose(f)] is [f], and
    [compose(f, g, h)(x)] is [f(g(h(x)))]; in general the functions are
    applied from the last to the first. *)
Theorem compose_right_to_left {A} (f g h : A -> A) (x : A) :
  compose [] x = x /\
  compose [f] x = f x /\
  compose [f; g; h] x = f (g (h x)) /\
  forall funcs : list (A -> A),
    compose funcs x = foldr (fun k acc => k acc) x funcs.
Proof.
  repeat split. intros funcs.
  destruct funcs as [|f0 [|g0 rest]]; try reflexivity.
  unfold compose. generalize (g0 :: rest). clear.
  intros rest. revert f0. induction rest as [|k rest IH]; intros f0; simpl.
  - reflexivity.
  - by rewrite IH.
Qed.

(** ** bindActionCreators *)

(** C5 (what the code does on two creators). Line 131 writes
    [boundActionCreators[keys]], with the array of all keys as property
    name: for [{a: fa, b: fb}] the result has the single property ["a,b"],
    holding the wrapper of the last creator, and neither [a] nor [b]. *)
Theorem bindActionCreators_two_keys (fa fb : action_creator) (d : value -> M value) :
  exists o,
    bindActionCreators (CreatorObject [("a", Fn fa); ("b", Fn fb)]) d =
      Ok (BoundObject o) /\
    o !! "a" = None /\ o !! "b" = None /\
    o !! "a,b" = Some (bindActionCreator fb d) /\
    dom o = {[ "a,b" ]}.
Proof.
  eexists. split; [reflexivity|]. simpl.
  change (array_to_string ["a"; "b"]) with "a,b".
  rewrite insert_insert_eq.
  split; [by rewrite lookup_insert_ne|].
  split; [by rewrite lookup_insert_ne|].
  split; [by rewrite lookup_insert_eq|].
  by rewrite dom_insert_L, dom_empty_L, (right_id_L ∅ (∪)).
Qed.

(** The property name is the key itself only when the object has a single
    key. *)
Example bindActionCreators_one_key (fa : action_creator) (d : value -> M value) :
  bindActionCreators (CreatorObject [("a", Fn fa); ("n", Val (VNum 1))]) d =
    Ok (BoundObject {[ "a,n" := bindActionCreator fa d ]}) /\
  bindActionCreators (CreatorObject [("a", Fn fa)]) d =
    Ok (BoundObject {[ "a" := bindActionCreator fa d ]}).
Proof. split; reflexivity. Qed.

(** ** combineReducers *)

(** What [combination] does on two sub-reducers and a state object: both
    are called in key order, each on the property read just before its
    call, the results are written to a new object, and that object is
    returned only if some result differs loosely from the previous value;
    otherwise the state object itself is returned. *)
Lemma combination_two_keys
    (StringToNumber : string -> option Z) (ToPrimitive : list obj -> loc -> value)
    (ra rb : reducer_fn) (l : loc) (action : value) (h h1 h2 : list obj)
    (va vb : value) :
  let n := length h in
  let pa := heap_get (h ++ [∅]) l "a" in
  ra pa action (h ++ [∅]) = (Ok va, h1) ->
  let h1' := heap_set n "a" va h1 in
  let pb := heap_get h1' l "b" in
  rb pb action h1' = (Ok vb, h2) ->
  let h2' := heap_set n "b" vb h2 in
  combineReducers StringToNumber ToPrimitive [("a", Fn ra); ("b", Fn rb)]
    (VObj l) action h =
    (Ok (if negb (loose_eq StringToNumber ToPrimitive h1' va pa) ||
            negb (loose_eq StringToNumber ToPrimitive h2' vb pb)
         then VObj n else VObj l), h2').
Proof.
  intros n pa Ha h1' pb Hb h2'.
  unfold combineReducers, combination. simpl. unfold_monad. simpl.
  fold n. fold pa. rewrite Ha. fold h1'. fold pb. rewrite Hb. reflexivity.
Qed.

Example combination_change_and_no_change
    (StringToNumber : string -> option Z) (ToPrimitive : list obj -> loc -> value) :
  let inc : reducer_fn :=
    fun state _ => match state with VNum k => ret (VNum (k + 1)) | _ => ret state end in
  let keep : reducer_fn := fun state _ => ret state in
  let h : list obj := [ {[ "a" := VNum 1; "b" := VNum 2 ]} ] in
  combineReducers StringToNumber ToPrimitive [("a", Fn inc); ("b", Fn keep)]
    (VObj 0) VNull h =
    (Ok (VObj 1), h ++ [ {[ "a" := VNum 2; "b" := VNum 2 ]} ]) /\
  combineReducers StringToNumber ToPrimitive [("a", Fn keep); ("b", Fn keep)]
    (VObj 0) VNull h =
    (Ok (VObj 0), h ++ [ {[ "a" := VNum 1; "b" := VNum 2 ]} ]).
Proof. split; vm_compute; reflexivity. Qed.

(** C4 (what the code does when a result is loosely equal to the previous
    value). Line 160 compares with [!=]: a sub-reducer that turns [null]
    into [undefined] is not seen as a change, [combination] returns the
    state object it was given, and that object still holds [null]. *)
Theorem combineReducers_loose_comparison
    (StringToNumber : string -> option Z) (ToPrimitive : list obj -> loc -> value)
    (action : value) :
  let ra : reducer_fn := fun _ _ => ret VUndefined in
  let rb : reducer_fn := fun state _ => ret state in
  let h : list obj := [ {[ "a" := VNull; "b" := VNum 0 ]} ] in
  exists h',
    combineReducers StringToNumber ToPrimitive [("a", Fn ra); ("b", Fn rb)]
      (VObj 0) action h = (Ok (VObj 0), h') /\
    heap_get h' 0 "a" = VNull /\
    ra (heap_get h 0 "a") action h = (Ok VUndefined, h) /\
    strict_eq VUndefined (heap_get h 0 "a") = false.
Proof.
  intros ra rb h. eexists. split; [|split; [|split]].
  - vm_compute. reflexivity.
  - vm_compute. reflexivity.
  - reflexivity.
  - reflexivity.
Qed.

Lemma demo_quiet f fuel :
  f <> 1 -> quiet (demo_listeners f (mk_store (dispatch demo_listeners fuel))).
Proof.
  intros Hf w. exists [EConsole "render" (currentState w)].
  split; [by repeat constructor|].
  destruct f as [|[|f]]; done.
Qed.

Example demo_two_passes :
  fst ((subscribe (Fn 1) ;; subscribe (Fn 2) ;; subscribe (Fn 3) ;;
        dispatch demo_listeners 5 (VObj 0) ;;
        before <- gets trace ;;
        dispatch demo_listeners 5 (VObj 0) ;;
        after <- gets trace ;;
        ret (listener_calls before,
             listener_calls (drop (length before) after))) demo_world)
  = Ok ([0; 1; 2; 3], [0; 1; 3]).
Proof. vm_compute. reflexivity. Qed.

Lemma unsubscribe_during_pass_witness :
  exists w1,
    (u1 <- subscribe (Fn 1) ;; u2 <- subscribe (Fn 2) ;;
     u3 <- subscribe (Fn 3) ;; ret (u1, u2, u3)) demo_world =
      (Ok (1, 2, 3), w1) /\
    forall a, dispatchable w1 a ->
      exists w2,
        dispatch demo_listeners 4 a w1 = (Ok a, w2) /\
        calls_between w1 w2 = [0; 1; 2; 3] /\
        forall n, later_passes demo_listeners 4 [0; 1; 3] n w2.
Proof.
  refine (proj1 (unsubscribe_during_pass demo_listeners [0] 1 2 3 demo_world 4
                   _ _ _ _ _ _ _)).
  - reflexivity.
  - intros f Hf fuel. apply demo_quiet. apply list_elem_of_singleton in Hf. by subst.
  - rewrite list_elem_of_singleton. discriminate.
  - reflexivity.
  - intros fuel. by apply demo_quiet.
  - intros fuel. by apply demo_quiet.
  - simpl. lia.
Defined.

Lemma invalid_action_rejected_witness :
  exists message,
    dispatch demo_listeners 1 (VObj 2) demo_world = (Throw (Error message), demo_world) /\
    getState demo_world = (Ok (currentState demo_world), demo_world).
Proof.
  apply (invalid_action_rejected demo_listeners 1 demo_world (VObj 2)).
  right. right. exists 2. split; reflexivity.
Defined.

Lemma reducer_error_propagates_witness :
  exists w',
    dispatch demo_listeners 1 (VObj 1) demo_world = (Throw (Thrown (VStr "boom")), w') /\
    getState w' = (Ok (VNum 0), w') /\
    trace w' = [EReducer (VNum 0) (VObj 1)] /\
    calls_between demo_world w' = [] /\
    arrays w' = [[0]] /\ nextListeners w' = 0 /\
    currentListeners w' = 0 /\
    subscriptions w' = [(0, true)] /\ reducer w' = counter.
Proof.
  apply (reducer_error_propagates demo_listeners 1 demo_world (VObj 1)
           (Thrown (VStr "boom")) (heap demo_world)).
  - exists 1. split; [reflexivity|]. vm_compute. discriminate.
  - vm_compute. reflexivity.
Defined.

Lemma unsubscribe_twice_witness :
  exists w1 w2 ls2,
    subscribe (Fn 7) demo_world = (Ok 1, w1) /\
    unsubscribe 1 w1 = (Ok tt, w2) /\
    registry w2 = Some ls2 /\ length ls2 = 1 /\
    unsubscribe 1 w2 = (Ok tt, w2) /\
    forall w', subscriptions w' !! 1 = Some (7, false) ->
               unsubscribe 1 w' = (Ok tt, w').
Proof.
  apply (unsubscribe_twice demo_world [0] 7). reflexivity.
Defined.

(** C3 (as stated, refuted). With the reducer that returns its state,
    [createStore(reducer)] ends with a fresh empty object as state, while
    the reducer applied to [undefined] returns [undefined] whatever the
    action: no call [reducer(undefined, a)] yields the state of the store. *)
Lemma createStore_absent_state_counterexample :
  let r : reducer_fn := fun state _ => ret state in
  exists st w',
    createStore demo_listeners 0 (Fn r)
      (StateAndEnhancer VUndefined (Val VUndefined)) demo_world = (Ok st, w') /\
    store_getState st w' = (Ok (VObj 3), w') /\
    ~ exists a h v h',
        r VUndefined a h = (Ok v, h') /\ store_getState st w' = (Ok v, w').
Proof.
  intros r. eexists _, _. split; [reflexivity|]. split; [reflexivity|].
  intros (a & h & v & h' & Hr & Hg). by injection Hr as <- _.
Qed.

Lemma createStore_seeds_from_empty_object_witness :
  exists st w',
    createStore demo_listeners 0 (Fn counter)
      (StateAndEnhancer VUndefined (Val VUndefined)) demo_world = (Ok st, w') /\
    store_getState st w' = (Ok (VObj 3), w') /\
    trace w' = [EReducer (VObj 3) (VObj 4)].
Proof.
  apply (createStore_seeds_from_empty_object demo_listeners 0 counter demo_world
           (VObj 3) (heap demo_world ++ [∅; init_action])).
  vm_compute. reflexivity.
Defined.

Lemma dispatch_returns_action_witness :
  (exists w', store_dispatch (mk_store (dispatch demo_listeners 1)) (VObj 0) demo_world =
                (Ok (VObj 0), w')) /\
  (exists w', composed_dispatch [printStateMiddleware; printStateMiddleware]
                (mk_store (dispatch demo_listeners 1)) 0 (VObj 0) demo_world =
                (Ok (VObj 0), w')).
Proof.
  apply (proj2 (dispatch_returns_action demo_listeners
                  [printStateMiddleware; printStateMiddleware] 1 0 (VObj 0)
                  ltac:(repeat constructor; apply logMiddleware_standard))
           demo_world (VNum 1) (heap demo_world) [0]).
  - exists 0. split; [reflexivity|]. vm_compute. discriminate.
  - vm_compute. reflexivity.
  - reflexivity.
  - intros f Hf fuel. apply demo_quiet. apply list_elem_of_singleton in Hf. by subst.
  - simpl. lia.
Defined.

Lemma middleware_order_witness :
  exists st w1,
    createStore demo_listeners 1 (Fn counter)
      (StateAndEnhancer (VNum 0)
         (Fn (applyMiddleware 0 [logMiddleware "before 1" "after 1";
                                 logMiddleware "before 2" "after 2"])))
      demo_world = (Ok st, w1) /\
    forall w a v h' ls,
      valid_action (heap w) a ->
      reducer w (currentState w) a (heap w) = (Ok v, h') ->
      registry w = Some ls ->
      (forall f, f ∈ ls -> quiet_listener demo_listeners f) ->
      length ls <= 1 ->
      exists w' evs,
        store_dispatch st a w = (Ok a, w') /\
        trace w' = trace w ++
          [EConsole "before 1" (currentState w); EConsole "before 2" (currentState w);
           EReducer (currentState w) a] ++ evs ++
          [EConsole "after 2" v; EConsole "after 1" v] /\
        listener_calls evs = ls.
Proof.
  apply (middleware_order demo_listeners "before 1" "after 1" "before 2" "after 2"
           1 0 counter (VNum 0) demo_world (VNum 0) (heap demo_world ++ [init_action])).
  vm_compute. reflexivity.
Defined.

Example demo_middleware_trace :
  (st <- createStore demo_listeners 1 (Fn counter)
           (StateAndEnhancer (VNum 0)
              (Fn (applyMiddleware 0 [logMiddleware "before 1" "after 1";
                                      logMiddleware "before 2" "after 2"]))) ;;
   store_subscribe st (Fn 0) ;;
   store_dispatch st (VObj 0) ;;
   gets (fun w => drop 1 (trace w))) demo_world =
  (Ok [EConsole "before 1" (VNum 0); EConsole "before 2" (VNum 0);
       EReducer (VNum 0) (VObj 0); EListener 0; EConsole "render" (VNum 1);
       EConsole "after 2" (VNum 1); EConsole "after 1" (VNum 1)],
   snd ((st <- createStore demo_listeners 1 (Fn counter)
           (StateAndEnhancer (VNum 0)
              (Fn (applyMiddleware 0 [logMiddleware "before 1" "after 1";
                                      logMiddleware "before 2" "after 2"]))) ;;
         store_subscribe st (Fn 0) ;;
         store_dispatch st (VObj 0)) demo_world)).
Proof. vm_compute. reflexivity. Qed.

(** * Further properties of the combinators *)

(** X13. [compose] distributes over concatenation of its argument lists:
    composing all the functions is composing the composition of the first
    ones with the composition of the last ones. *)
Theorem compose_app {A} (fs gs : list (A -> A)) (x : A) :
  compose (fs ++ gs) x = compose fs (compose gs x).
Proof. rewrite !compose_foldr. apply foldr_app. Qed.

Lemma entry_app_notin {F} key (o1 o2 : list (string * jsarg F)) :
  key ∉ keys_of o1 -> entry key (o1 ++ o2) = entry key o2.
Proof.
  induction o1 as [|[k x] o1 IH]; intros Hk; [done|]. simpl.
  unfold keys_of in Hk. simpl in Hk. apply not_elem_of_cons in Hk as [Hne Hk].
  rewrite decide_False by done. by apply IH.
Qed.

Lemma bind_loop_last d keys (o2 : list (string * jsarg action_creator)) :
  forall o1 acc,
    NoDup (keys_of (o1 ++ o2)) ->
    bind_loop (o1 ++ o2) d keys (keys_of o2) acc =
      match last_creator o2 with
      | Some f => <[array_to_string keys := bindActionCreator f d]> acc
      | None => acc
      end.
Proof.
  induction o2 as [|[k x] o2 IH]; intros o1 acc Hnd; [done|].
  simpl. rewrite entry_app_notin.
  - simpl. rewrite decide_True by done.
    specialize (IH (o1 ++ [(k, x)])). rewrite <- app_assoc in IH. simpl in IH.
    destruct x as [f | v]; rewrite IH by done;
      destruct (last_creator o2); try done.
    by rewrite insert_insert_eq.
  - unfold keys_of in *. rewrite fmap_app in Hnd. simpl in Hnd.
    apply NoDup_app in Hnd as (_ & Hdisj & _). intros Hin.
    apply (Hdisj k Hin). by left.
Qed.

(** X14. What [bindActionCreators] returns for every object: because line
    131 indexes with the whole key array, the result has at most one
    property, named by the keys joined with commas and holding the wrapper
    of the last entry that is a function; it is empty when no entry is a
    function.  Anything that is neither a function nor an object is
    rejected. *)
Theorem bindActionCreators_result (d : value -> M value) :
  (forall o, NoDup (keys_of o) ->
     bindActionCreators (CreatorObject o) d =
       Ok (BoundObject
             match last_creator o with
             | Some f => {[ array_to_string (keys_of o) := bindActionCreator f d ]}
             | None => ∅
             end)) /\
  (forall v, (forall l, v <> VObj l) ->
     bindActionCreators (NotCreators v) d =
       Throw (Error "actionCreator expected  an object or a function.")).
Proof.
  split.
  - intros o Hnd. unfold bindActionCreators. do 2 f_equal.
    rewrite (bind_loop_last d (keys_of o) o [] ∅ Hnd).
    by destruct (last_creator o).
  - intros v Hv. destruct v; try done. by destruct (Hv l).
Qed.

Section CombinatorProperties.

Variable StringToNumber : string -> option Z.
Variable ToPrimitive : list obj -> loc -> value.

Abbreviation loose_eq := (loose_eq StringToNumber ToPrimitive).
Abbreviation combineReducers := (combineReducers StringToNumber ToPrimitive).
Abbreviation combination_loop := (combination_loop StringToNumber ToPrimitive).






(** X16. A [null] state makes [combination] throw as soon as there is a
    key: the property of the state is read (line 156) before the entry is
    tested for being a function. *)
Theorem combination_null_state reducers action h :
  reducers <> [] ->
  combineReducers reducers VNull action h =
    (Throw (TypeError "Cannot read properties"), h ++ [∅]).
Proof. by destruct reducers as [|[k x] reducers]. Qed.

Lemma heap_set_last (h : list obj) k v acc :
  heap_set (length h) k v (h ++ [acc]) = h ++ [<[k := v]> acc].
Proof.
  unfold heap_set. rewrite list_lookup_middle by done.
  by rewrite insert_app_r_alt, Nat.sub_diag by done.
Qed.

Lemma keys_of_pure_entries rs : keys_of (pure_entries rs) = keys_of rs.
Proof.
  unfold keys_of, pure_entries. rewrite <- list_fmap_compose.
  by apply list_fmap_ext.
Qed.

Lemma next_state_lookup o action rs : forall acc k,
  NoDup (keys_of rs) ->
  next_state o action acc rs !! k =
    match entry k rs with
    | Fn f => Some (f (default VUndefined (o !! k)) action)
    | Val _ => acc !! k
    end.
Proof.
  induction rs as [|[k0 x] rs IH]; intros acc k Hnd; [done|].
  unfold keys_of in Hnd. simpl in Hnd. apply NoDup_cons in Hnd as [Hk0 Hnd].
  simpl. destruct (decide (k0 = k)) as [-> | Hne].
  - assert (entry k rs = Val VUndefined) as Hent.
    { clear -Hk0. induction rs as [|[k1 y] rs IH]; [done|]. simpl in *.
      apply not_elem_of_cons in Hk0 as [Hne Hk0].
      rewrite decide_False by done. by apply IH. }
    destruct x as [f | v]; rewrite IH, Hent by done; [|done].
    by rewrite lookup_insert_eq.
  - destruct x as [f | v]; rewrite IH by done; [|done].
    destruct (entry k rs); [done|]. by rewrite lookup_insert_ne.
Qed.

Lemma combination_loop_pure l o action h (rs2 : list (string * jsarg (value -> value -> value))) :
  h !! l = Some o ->
  forall rs1 acc hasChange,
    NoDup (keys_of (rs1 ++ rs2)) ->
    exists hasChange',
      combination_loop (pure_entries (rs1 ++ rs2)) (VObj l) action (length h)
        (keys_of rs2) hasChange (h ++ [acc]) =
        (Ok hasChange', h ++ [next_state o action acc rs2]) /\
      (hasChange = true -> hasChange' = true) /\
      ((exists k f, (k, Fn f) ∈ rs2 /\
          forall h0, loose_eq h0 (f (default VUndefined (o !! k)) action)
                       (default VUndefined (o !! k)) = false) ->
       hasChange' = true).
Proof.
  intros Hl. induction rs2 as [|[k x] rs2 IH]; intros rs1 acc hasChange Hnd.
  - exists hasChange. split; [done|]. split; [done|].
    intros (k & f & Hin & _). by apply elem_of_nil in Hin.
  - assert (k ∉ keys_of (pure_entries rs1)) as Hk.
    { rewrite keys_of_pure_entries. unfold keys_of in *.
      rewrite fmap_app in Hnd. simpl in Hnd.
      apply NoDup_app in Hnd as (_ & Hdisj & _). intros Hin.
      apply (Hdisj k Hin). by left. }
    specialize (IH (rs1 ++ [(k, x)])). rewrite <- app_assoc in IH. simpl in IH.
    simpl. unfold bind at 1, gets.
    assert (heap_get (h ++ [acc]) l k = default VUndefined (o !! k)) as Hprev.
    { unfold heap_get. by rewrite (lookup_app_l_Some _ _ _ _ Hl). }
    rewrite Hprev. unfold pure_entries. rewrite map_app.
    rewrite entry_app_notin by exact Hk. simpl. rewrite decide_True by done.
    fold (pure_entries (rs1 ++ (k, x) :: rs2)) in IH.
    unfold pure_entries in IH. rewrite map_app in IH. simpl in IH.
    destruct x as [f | v]; simpl.
    + unfold bind at 1, pure_reducer, ret. unfold bind at 1, modify.
      rewrite heap_set_last. unfold bind at 1, gets.
      set (acc1 := <[k := _]> acc).
      set (differs := negb _).
      destruct (IH acc1 (hasChange || differs) Hnd)
        as (hc' & Hloop & Hmono & Hchange).
      exists hc'. split; [exact Hloop|]. split.
      * intros ->. by apply Hmono.
      * intros (k' & f' & Hin & Hdiff).
        apply elem_of_cons in Hin as [Heq | Hin].
        -- injection Heq as -> ->. apply Hmono. unfold differs.
           rewrite Hdiff. simpl. by rewrite orb_true_r.
        -- apply Hchange. eauto.
    + destruct (IH acc hasChange Hnd) as (hc' & Hloop & Hmono & Hchange).
      exists hc'. split; [exact Hloop|]. split; [exact Hmono|].
      intros (k' & f' & Hin & Hdiff).
      apply elem_of_cons in Hin as [Heq | Hin]; [done|].
      apply Hchange. eauto.
Qed.

(** X17. Change detected: with sub-reducers that compute on values, a state
    object and distinct keys, if some result differs from the previous
    value of its key (loosely, as line 160 compares), [combination]
    returns a new object; it holds, for every key whose entry is a
    function, what that function returned on the state's property, and no
    property for the other keys.  The state object is not written. *)
Theorem combination_new_state rs l o action h :
  NoDup (keys_of rs) ->
  h !! l = Some o ->
  (exists k f, (k, Fn f) ∈ rs /\
     forall h0, loose_eq h0 (f (default VUndefined (o !! k)) action)
                  (default VUndefined (o !! k)) = false) ->
  exists next,
    combineReducers (pure_entries rs) (VObj l) action h =
      (Ok (VObj (length h)), h ++ [next]) /\
    (forall k, next !! k =
       match entry k rs with
       | Fn f => Some (f (default VUndefined (o !! k)) action)
       | Val _ => None
       end).
Proof.
  intros Hnd Hl Hchange. unfold combineReducers, combination.
  unfold bind at 1, ret. unfold bind at 1, alloc.
  rewrite keys_of_pure_entries.
  destruct (combination_loop_pure l o action h rs Hl [] ∅ false Hnd)
    as (hc & Hloop & _ & Hc).
  simpl in Hloop. rewrite (bind_Ok _ _ _ _ _ Hloop).
  rewrite (Hc Hchange). unfold ret.
  exists (next_state o action ∅ rs). split; [done|].
  intros k. rewrite next_state_lookup by done. by destruct (entry k rs).
Qed.

End CombinatorProperties.

(** * The reducer of the demo *)

Lemma appReducer_update (h : list obj) (a : loc) type field l o :
  app_update type field ->
  heap_get h a "type" = VStr type ->
  h !! l = Some o ->
  exists h',
    appReducer (VObj l) (VObj a) h = (Ok (VObj l), h') /\
    heap_get h' l field = heap_get h a field /\
    (forall k, k <> field -> heap_get h' l k = heap_get h l k) /\
    (forall l', l' <> l -> l' < length h -> h' !! l' = h !! l').
Proof.
  intros Hkind Hty Hl.
  pose proof (lookup_lt_Some _ _ _ Hl) as Hlt.
  assert (appReducer (VObj l) (VObj a) h =
          (Ok (VObj l),
           <[l := <[field := heap_get h a field]> o]>
             (h ++ [ {[ field := heap_get h a field ]} ]))) as Heq.
  { unfold appReducer. unfold bind at 1, get_prop, gets. rewrite Hty.
    destruct Hkind as [[-> ->] | [-> ->]]; simpl;
      unfold_monad; simpl; unfold heap_set;
      by rewrite (lookup_app_l_Some _ _ _ _ Hl). }
  eexists. split; [exact Heq|].
  assert (forall k,
            heap_get (<[l := <[field := heap_get h a field]> o]>
                        (h ++ [ {[ field := heap_get h a field ]} ])) l k =
            default VUndefined ((<[field := heap_get h a field]> o) !! k)) as Hget.
  { intros k. unfold heap_get.
    rewrite list_lookup_insert_eq; [done|]. rewrite length_app. lia. }
  split; [|split].
  - by rewrite Hget, lookup_insert_eq.
  - intros k Hk. rewrite Hget, lookup_insert_ne by done.
    unfold heap_get. by rewrite Hl.
  - intros l' Hne Hl'. rewrite list_lookup_insert_ne by done.
    by rewrite lookup_app_l.
Qed.

(** X18. [appReducer] updates the state in place.  On ["UPDATE_HEADER"] (or
    ["UPDATE_BODY"]) it returns the state object it was given, the same
    reference, after writing the action's [header] (or [body]) into it;
    the other properties of the state and the other objects are not
    touched.  On any other action type it returns the state and leaves the
    heap as it is. *)
Theorem appReducer_in_place (h : list obj) (a : loc) :
  (forall type field l o,
     app_update type field ->
     heap_get h a "type" = VStr type ->
     h !! l = Some o ->
     exists h',
       appReducer (VObj l) (VObj a) h = (Ok (VObj l), h') /\
       heap_get h' l field = heap_get h a field /\
       (forall k, k <> field -> heap_get h' l k = heap_get h l k) /\
       (forall l', l' <> l -> l' < length h -> h' !! l' = h !! l')) /\
  (forall state,
     heap_get h a "type" <> VStr "UPDATE_HEADER" ->
     heap_get h a "type" <> VStr "UPDATE_BODY" ->
     appReducer state (VObj a) h = (Ok state, h)).
Proof.
  split.
  - intros type field l o. apply appReducer_update.
  - intros state H1 H2. unfold appReducer. unfold bind at 1, get_prop, gets.
    unfold strict_eq. rewrite !bool_decide_eq_false_2 by done. done.
Qed.

Section DemoProperties.

Variable listener_body : fid -> store -> M unit.

(** X20. The store of src/index.js: with [appReducer] as reducer and an
    object as state, a dispatch of ["UPDATE_HEADER"] or ["UPDATE_BODY"]
    does not replace the state.  [getState()] returns the same reference
    as before, the object it names now carries the action's [header] or
    [body], and the listeners have been called. *)
Theorem app_dispatch_in_place fuel w l o a type field ls :
  reducer w = appReducer ->
  currentState w = VObj l ->
  heap w !! l = Some o ->
  app_update type field ->
  heap_get (heap w) a "type" = VStr type ->
  registry w = Some ls ->
  (forall f, f ∈ ls -> quiet_listener listener_body f) ->
  length ls <= fuel ->
  exists w',
    dispatch listener_body fuel (VObj a) w = (Ok (VObj a), w') /\
    getState w' = (Ok (VObj l), w') /\
    heap_get (heap w') l field = heap_get (heap w) a field /\
    (forall k, k <> field -> heap_get (heap w') l k = heap_get (heap w) l k) /\
    calls_between w w' = ls.
Proof.
  intros Hred Hst Hl Hkind Hty Hreg Hq Hfuel.
  destruct (appReducer_update (heap w) a type field l o Hkind Hty Hl)
    as (h' & Hr & Hfield & Hother & _).
  destruct (dispatch_quiet listener_body fuel w (VObj a) (VObj l) h' ls)
    as [evs [He Hl']]; try done.
  { exists a. split; [done|]. by rewrite Hty. }
  { by rewrite Hred, Hst. }
  eexists. split; [exact He|]. repeat split; try done.
  by rewrite (calls_between_app _ _ (EReducer (currentState w) (VObj a) :: evs)).
Qed.

End DemoProperties.

(** * The further properties at concrete inputs *)

Lemma failing_quiet f fuel :
  f <> 1 -> quiet (failing_listeners f (mk_store (dispatch failing_listeners fuel))).
Proof.
  intros Hf w. exists [EConsole "render" (currentState w)].
  split; [by repeat constructor|].
  destruct f as [|[|f]]; done.
Qed.

Lemma subscribing_quiet f fuel :
  f <> 1 ->
  quiet (subscribing_listeners f (mk_store (dispatch subscribing_listeners fuel))).
Proof.
  intros Hf w. exists [EConsole "render" (currentState w)].
  split; [by repeat constructor|].
  destruct f as [|[|f]]; done.
Qed.

Lemma demo_action_valid : valid_action (heap demo_world) (VObj 0).
Proof. exists 0. split; [reflexivity|]. vm_compute. discriminate. Qed.

Lemma dispatch_updates_state_witness :
  exists w',
    dispatch demo_listeners 1 (VObj 0) demo_world = (Ok (VObj 0), w') /\
    getState w' = (Ok (VNum 1), w') /\
    heap w' = heap demo_world /\
    calls_between demo_world w' = [0] /\
    registry w' = Some [0] /\
    currentListeners w' = nextListeners w' /\
    subscriptions w' = subscriptions demo_world /\
    reducer w' = reducer demo_world.
Proof.
  apply (dispatch_updates_state demo_listeners 1 demo_world (VObj 0) (VNum 1)
           (heap demo_world) [0]).
  - apply demo_action_valid.
  - vm_compute. reflexivity.
  - reflexivity.
  - intros f Hf fuel. apply demo_quiet. apply list_elem_of_singleton in Hf. by subst.
  - simpl. lia.
Defined.

Lemma listener_error_aborts_pass_witness :
  exists w',
    dispatch failing_listeners 2 (VObj 0) demo_world_three =
      (Throw (Thrown (VStr "listener failed")), w') /\
    getState w' = (Ok (VNum 1), w') /\
    calls_between demo_world_three w' = [0] ++ [1].
Proof.
  apply (listener_error_aborts_pass failing_listeners 2 demo_world_three (VObj 0)
           (VNum 1) (heap demo_world) [0] 1 [2]).
  - apply demo_action_valid.
  - vm_compute. reflexivity.
  - reflexivity.
  - intros f Hf fuel. apply failing_quiet. apply list_elem_of_singleton in Hf. by subst.
  - reflexivity.
  - simpl. lia.
Defined.

Lemma reentrant_dispatch_never_returns_witness :
  exists w',
    dispatch redispatching_listeners 1000 (VObj 0) demo_world = (OutOfFuel, w').
Proof.
  generalize 1000.
  apply (reentrant_dispatch_never_returns redispatching_listeners demo_world
           (VObj 0) 0 []).
  - apply demo_action_valid.
  - intros s. destruct s; eexists; reflexivity.
  - reflexivity.
  - reflexivity.
Defined.

Lemma subscribe_during_pass_witness :
  exists w1,
    dispatch subscribing_listeners 3 (VObj 0) demo_world_two = (Ok (VObj 0), w1) /\
    calls_between demo_world_two w1 = [0] ++ [1] /\
    registry w1 = Some ([0] ++ [1; 2]) /\
    forall a', dispatchable w1 a' ->
      exists w2,
        dispatch subscribing_listeners 3 a' w1 = (Ok a', w2) /\
        calls_between w1 w2 = [0] ++ [1; 2] /\
        registry w2 = Some ([0] ++ [1; 2; 2]).
Proof.
  apply (subscribe_during_pass subscribing_listeners 3 demo_world_two (VObj 0)
           [0] 1 2).
  - split; [apply demo_action_valid|]. eexists _, _. vm_compute. reflexivity.
  - reflexivity.
  - intros f Hf fuel. apply subscribing_quiet.
    apply list_elem_of_singleton in Hf. by subst.
  - intros fuel. by apply subscribing_quiet.
  - reflexivity.
  - simpl. lia.
Defined.

Lemma subscribe_unsubscribe_round_trip_witness :
  exists w1 w2 ls2,
    subscribe (Fn 7) demo_world = (Ok 1, w1) /\
    unsubscribe 1 w1 = (Ok tt, w2) /\
    registry w2 = Some ls2 /\
    ls2 ≡ₚ [0] /\
    (7 ∉ [0] -> ls2 = [0]) /\
    (forall l1 l2, [0] = l1 ++ 7 :: l2 -> 7 ∉ l1 -> ls2 = l1 ++ l2 ++ [7]).
Proof.
  apply (subscribe_unsubscribe_round_trip demo_listeners demo_world [0] 7). reflexivity.
Defined.


Lemma replaceReducer_redispatches_witness :
  exists w' evs,
    replaceReducer (dispatch demo_listeners 1) (Fn counter) demo_world = (Ok tt, w') /\
    reducer w' = counter /\
    getState w' = (Ok (VNum 0), w') /\
    trace w' = trace demo_world ++ EReducer (VNum 0) (VObj 3) :: evs /\
    listener_calls evs = [0] /\
    registry w' = Some [0].
Proof.
  apply (proj2 (replaceReducer_redispatches demo_listeners 1 demo_world)
           counter (VNum 0) (heap demo_world ++ [init_action]) [0]).
  - vm_compute. reflexivity.
  - reflexivity.
  - intros f Hf fuel. apply demo_quiet. apply list_elem_of_singleton in Hf. by subst.
  - simpl. lia.
Defined.

Lemma createStore_rejects_witness :
  exists w',
    createStore demo_listeners 1 (Fn counter)
      (StateAndEnhancer (VNum 0) (Val (VNum 5))) demo_world =
      (Throw (Error "Expected the enhancer to be a function."), w') /\
    (w' = demo_world \/ w' = set_heap (heap demo_world ++ [∅]) demo_world).
Proof.
  apply (proj2 (createStore_rejects demo_listeners 1 demo_world) counter (VNum 0) (VNum 5)).
  discriminate.
Defined.

Lemma createStore_preloaded_witness :
  (forall v h',
     counter (VNum 0) (VObj 3) (heap demo_world ++ [init_action]) = (Ok v, h') ->
     exists st w',
       createStore demo_listeners 1 (Fn counter)
         (StateAndEnhancer (VNum 0) (Val VUndefined)) demo_world = (Ok st, w') /\
       store_getState st w' = (Ok v, w') /\
       reducer w' = counter /\
       registry w' = Some [] /\
       currentListeners w' = nextListeners w' /\
       trace w' = trace demo_world ++ [EReducer (VNum 0) (VObj 3)]) /\
  (forall e h',
     counter (VNum 0) (VObj 3) (heap demo_world ++ [init_action]) = (Throw e, h') ->
     exists w',
       createStore demo_listeners 1 (Fn counter)
         (StateAndEnhancer (VNum 0) (Val VUndefined)) demo_world = (Throw e, w')).
Proof.
  apply (createStore_preloaded demo_listeners 1 counter (VNum 0) demo_world).
  discriminate.
Defined.

Lemma middleware_chain_order_witness :
  exists w' evs,
    composed_dispatch
      (logMiddlewares [("before 1", "after 1"); ("before 2", "after 2");
                       ("before 3", "after 3")])
      (mk_store (dispatch demo_listeners 1)) 0 (VObj 0) demo_world = (Ok (VObj 0), w') /\
    trace w' = trace demo_world ++
      [EConsole "before 1" (VNum 0); EConsole "before 2" (VNum 0);
       EConsole "before 3" (VNum 0)] ++
      [EReducer (VNum 0) (VObj 0)] ++ evs ++
      [EConsole "after 3" (VNum 1); EConsole "after 2" (VNum 1);
       EConsole "after 1" (VNum 1)] /\
    listener_calls evs = [0].
Proof.
  apply (middleware_chain_order demo_listeners
           [("before 1", "after 1"); ("before 2", "after 2"); ("before 3", "after 3")]
           1 0 demo_world (VObj 0) (VNum 1) (heap demo_world) [0]).
  - apply demo_action_valid.
  - vm_compute. reflexivity.
  - reflexivity.
  - intros f Hf fuel. apply demo_quiet. apply list_elem_of_singleton in Hf. by subst.
  - simpl. lia.
Defined.

Lemma bindActionCreators_result_witness :
  bindActionCreators
    (CreatorObject [("a", Fn (fun _ => ret (VObj 0))); ("n", Val (VNum 1));
                    ("b", Fn (fun _ => ret (VObj 1)))]) ret =
    Ok (BoundObject {[ "a,n,b" := bindActionCreator (fun _ => ret (VObj 1)) ret ]}).
Proof.
  apply (proj1 (bindActionCreators_result ret)
           [("a", Fn (fun _ => ret (VObj 0))); ("n", Val (VNum 1));
            ("b", Fn (fun _ => ret (VObj 1)))]).
  apply (bool_decide_unpack _). vm_compute. exact I.
Defined.


Lemma combination_null_state_witness :
  combineReducers (fun _ => None) (fun _ _ => VUndefined)
    [("a", Val VNull)] VNull VNull [] =
    (Throw (TypeError "Cannot read properties"), [] ++ [∅]).
Proof.
  apply (combination_null_state (fun _ => None) (fun _ _ => VUndefined)
           [("a", Val VNull)] VNull []).
  discriminate.
Defined.

Lemma combination_new_state_witness :
  exists next,
    combineReducers (fun _ => None) (fun _ _ => VUndefined)
      (pure_entries [("a", Fn (fun _ _ => VNum 1)); ("n", Val VNull)])
      (VObj 0) VNull [ {[ "a" := VNum 0 ]} ] =
      (Ok (VObj 1), [ {[ "a" := VNum 0 ]} ] ++ [next]) /\
    (forall k, next !! k =
       match entry k [("a", Fn (fun _ _ : value => VNum 1)); ("n", Val VNull)] with
       | Fn f => Some (f (default VUndefined (({[ "a" := VNum 0 ]} : obj) !! k)) VNull)
       | Val _ => None
       end).
Proof.
  apply (combination_new_state (fun _ => None) (fun _ _ => VUndefined)
           [("a", Fn (fun _ _ => VNum 1)); ("n", Val VNull)] 0
           {[ "a" := VNum 0 ]} VNull [ {[ "a" := VNum 0 ]} ]).
  - apply (bool_decide_unpack _). vm_compute. exact I.
  - reflexivity.
  - exists "a", (fun _ _ => VNum 1). split; [by left|]. intros h0. reflexivity.
Defined.

Lemma appReducer_in_place_witness :
  exists h',
    appReducer (VObj 0) (VObj 1) (heap app_world) = (Ok (VObj 0), h') /\
    heap_get h' 0 "header" = heap_get (heap app_world) 1 "header" /\
    (forall k, k <> "header" -> heap_get h' 0 k = heap_get (heap app_world) 0 k) /\
    (forall l', l' <> 0 -> l' < length (heap app_world) ->
                h' !! l' = heap app_world !! l').
Proof.
  apply (proj1 (appReducer_in_place (heap app_world) 1) "UPDATE_HEADER" "header" 0
           {[ "header" := VStr "Header"; "body" := VStr "Body" ]}).
  - left. by split.
  - reflexivity.
  - reflexivity.
Defined.

Lemma subscribe_then_dispatch_witness :
  exists w1,
    subscribe (Fn 3) demo_world = (Ok 1, w1) /\
    trace w1 = trace demo_world /\ currentState w1 = currentState demo_world /\
    reducer w1 = reducer demo_world /\
    forall a, dispatchable w1 a ->
      exists w2, dispatch demo_listeners 2 a w1 = (Ok a, w2) /\
                 calls_between w1 w2 = [0] ++ [3].
Proof.
  apply (proj2 (subscribe_then_dispatch demo_listeners 2 demo_world [0] 3)).
  - reflexivity.
  - intros g Hg fuel. apply demo_quiet.
    apply elem_of_cons in Hg as [-> | Hg]; [done|].
    apply list_elem_of_singleton in Hg. by subst.
  - simpl. lia.
Defined.

Lemma app_dispatch_in_place_witness :
  exists w',
    dispatch demo_listeners 1 (VObj 1) app_world = (Ok (VObj 1), w') /\
    getState w' = (Ok (VObj 0), w') /\
    heap_get (heap w') 0 "header" = heap_get (heap app_world) 1 "header" /\
    (forall k, k <> "header" ->
               heap_get (heap w') 0 k = heap_get (heap app_world) 0 k) /\
    calls_between app_world w' = [0].
Proof.
  apply (app_dispatch_in_place demo_listeners 1 app_world 0
           {[ "header" := VStr "Header"; "body" := VStr "Body" ]} 1
           "UPDATE_HEADER" "header" [0]).
  - reflexivity.
  - reflexivity.
  - reflexivity.
  - left. by split.
  - reflexivity.
  - reflexivity.
  - intros f Hf fuel. apply demo_quiet. apply list_elem_of_singleton in Hf. by subst.
  - simpl. lia.
Defined.
